(** * Earthquake alert system: a shallow embedding of [earthquakes.py]

    The program polls a seismic feed, keeps the events that lie within
    [MAX_DISTANCE] km of the configured location, reports the strongest of
    them once per identifier and starts an audible alarm when its magnitude
    reaches [EVACUATION_MAGNITUDE].

    The module-level globals of the script ([is_alarm_active],
    [alarm_process], [last_earthquake_id], [shutdown_requested]) are the
    fields of [State]; every function of the script that reads or writes
    them is a function on [State].  What the script does to the outside
    world (logger, console, child processes, timers, the two data files) is
    appended to the [effects] field, newest effect first.  What the outside
    world answers (does a path exist, does [Popen] find the binary, ...) is
    read from an [Env].

    Numbers that the script holds as Python floats (magnitudes, distances,
    coordinates) are rationals here; [calculate_distance] (haversine in
    floating point) and the [strftime] formatting of the event time are
    section variables of the polling part. *)

From Stdlib Require Import List Permutation Sorted String Ascii Bool Arith ZArith.
From Stdlib Require Import QArith Qabs Lia.
Import ListNotations.

Local Open Scope list_scope.
Local Open Scope Q_scope.

(** ** Configuration: the [CONFIG] dictionary *)

Record Config := mkConfig {
  LOCATION_latitude : Q;
  LOCATION_longitude : Q;
  MAX_DISTANCE : Q;
  EVACUATION_MAGNITUDE : Q;
  CHECK_INTERVAL : Z;
  ALARM_SOUND : string;
  MAX_ALARM_DURATION : Z;
  USGS_API_URL : string;
  DATA_DIR : string
}.

Definition CONFIG : Config :=
  {| LOCATION_latitude := 46097 # 10000;
     LOCATION_longitude := - (740817 # 10000);
     MAX_DISTANCE := 300;
     EVACUATION_MAGNITUDE := 45 # 10;
     CHECK_INTERVAL := 10%Z;
     ALARM_SOUND := "alarm.mp3"%string;
     MAX_ALARM_DURATION := 120%Z;
     USGS_API_URL :=
       "https://earthquake.usgs.gov/earthquakes/feed/v1.0/summary/4.5_hour.geojson"%string;
     DATA_DIR := "data"%string |}.

(** ** Data model *)

(** One entry of the feed's [features] array: [quake["id"]],
    [quake["properties"]["mag" | "place" | "time"]] and
    [quake["geometry"]["coordinates"] = [lon, lat, depth]]. *)
Record quake := mkQuake {
  quake_id : string;
  prop_mag : Q;
  prop_place : string;
  prop_time : Z;
  coord_lon : Q;
  coord_lat : Q;
  coord_depth : Q
}.

(** The dictionary appended to [nearby_quakes]. *)
Record nearby := mkNearby {
  nq_quake : quake;
  nq_distance : Q
}.

(** The [quake_data] dictionary that is saved and logged. *)
Record quake_data := mkQuakeData {
  qd_id : string;
  qd_magnitude : Q;
  qd_depth : Q;
  qd_location : string;
  qd_time : string;
  qd_distance : Q
}.

(** The texts the script logs and prints, by the place that emits them. *)
Inductive message :=
| MSG_alerta                       (* play_alarm: "ALERTA! SISMO SIGNIFICATIVO ..." *)
| MSG_how_to_silence               (* play_alarm: "Presione Ctrl+C y luego 'a' ..." *)
| MSG_sound_not_found (path : string)
| MSG_play_error                   (* "Error al reproducir la alarma" *)
| MSG_alarm_stopped                (* "Alarma detenida." *)
| MSG_stop_error                   (* "Error al detener la alarma" *)
| MSG_log_error                    (* "Error al registrar el sismo" *)
| MSG_save_error                   (* "Error al guardar informacion ..." *)
| MSG_load_error                   (* "Error al cargar informacion ..." *)
| MSG_no_recent                    (* "No hay sismos recientes que reportar." *)
| MSG_no_nearby                    (* "No hay sismos cercanos a tu ubicacion." *)
| MSG_quake_info (d : quake_data)  (* the five-line report of a new event *)
| MSG_no_evacuation                (* "Este sismo no requiere evacuacion ..." *)
| MSG_api_error                    (* "Error al conectar con la API del USGS" *)
| MSG_connection_error             (* "Error de conexion" *)
| MSG_check_error                  (* "Error al verificar sismos" *)
| MSG_error                        (* "Error: ..." on the console *)
| MSG_keyboard_help                (* "Presione 'a' para reconocer ..." *)
| MSG_closing                      (* "Cerrando sistema de alerta de sismos..." *)
| MSG_signal_received.             (* "Senal de terminacion recibida ..." *)

(** What the script does to the world. *)
Inductive effect :=
| LoggerInfo (m : message)
| LoggerError (m : message)
| Console (m : message)
| Popen (pid : nat) (cmd : list string)   (* a child process was started *)
| TimerStart (seconds : Z)                (* threading.Timer(seconds, stop_alarm).start() *)
| Terminate (pid : nat)                   (* alarm_process.terminate() *)
| Taskkill                                (* taskkill /F /IM wmplayer.exe *)
| SaveLastQuake (d : quake_data) (written : bool)
| AppendLog (d : quake_data) (written : bool).

(** The globals of the script and the effects performed so far. *)
Record State := mkState {
  is_alarm_active : bool;
  alarm_process : option nat;
  last_earthquake_id : option string;
  shutdown_requested : bool;
  effects : list effect
}.

Definition initial_state : State :=
  {| is_alarm_active := false;
     alarm_process := None;
     last_earthquake_id := None;
     shutdown_requested := false;
     effects := [] |}.

Definition set_is_alarm_active (b : bool) (st : State) : State :=
  {| is_alarm_active := b;
     alarm_process := alarm_process st;
     last_earthquake_id := last_earthquake_id st;
     shutdown_requested := shutdown_requested st;
     effects := effects st |}.

Definition set_alarm_process (p : option nat) (st : State) : State :=
  {| is_alarm_active := is_alarm_active st;
     alarm_process := p;
     last_earthquake_id := last_earthquake_id st;
     shutdown_requested := shutdown_requested st;
     effects := effects st |}.

Definition set_last_earthquake_id (i : option string) (st : State) : State :=
  {| is_alarm_active := is_alarm_active st;
     alarm_process := alarm_process st;
     last_earthquake_id := i;
     shutdown_requested := shutdown_requested st;
     effects := effects st |}.

Definition set_shutdown_requested (b : bool) (st : State) : State :=
  {| is_alarm_active := is_alarm_active st;
     alarm_process := alarm_process st;
     last_earthquake_id := last_earthquake_id st;
     shutdown_requested := b;
     effects := effects st |}.

Definition emit (e : effect) (st : State) : State :=
  {| is_alarm_active := is_alarm_active st;
     alarm_process := alarm_process st;
     last_earthquake_id := last_earthquake_id st;
     shutdown_requested := shutdown_requested st;
     effects := e :: effects st |}.

(** ** The environment *)

(** [os.name]. *)
Inductive os_name := nt | posix | other_os.

(** What [subprocess.Popen] does with a command line. *)
Inductive popen_outcome :=
| Started          (* a Popen object is returned *)
| FileNotFound     (* FileNotFoundError: the binary is not installed *)
| PopenError.      (* any other exception *)

Record Env := mkEnv {
  os : os_name;
  path_exists : string -> bool;            (* os.path.exists *)
  popen : list string -> popen_outcome;    (* subprocess.Popen *)
  timer_start_ok : bool;                   (* Timer(...).start() does not raise *)
  terminate_ok : bool;                     (* terminate() / taskkill does not raise *)
  save_ok : bool;                          (* open(LAST_QUAKE_FILE, "w") and json.dump succeed *)
  log_ok : bool;                           (* open(LOG_FILE, "a") and the writes succeed *)
  tty_ok : bool                            (* termios.tcgetattr / tty.setcbreak succeed *)
}.

(** ** Observations on the effects *)

Definition is_popen (e : effect) : bool :=
  match e with Popen _ _ => true | _ => false end.

Definition is_timer_start (e : effect) : bool :=
  match e with TimerStart _ => true | _ => false end.

(** Child processes started so far; the next one gets this number. *)
Definition popen_count (es : list effect) : nat :=
  List.length (filter is_popen es).

Definition timer_count (es : list effect) : nat :=
  List.length (filter is_timer_start es).

(** How often [terminate()] was called on process [pid]. *)
Fixpoint terminations (pid : nat) (es : list effect) : nat :=
  match es with
  | [] => 0%nat
  | Terminate p :: rest =>
      if Nat.eqb p pid then S (terminations pid rest) else terminations pid rest
  | _ :: rest => terminations pid rest
  end.

(** The sink processes that were started and not stopped since.
    [taskkill /IM wmplayer.exe] stops every player at once. *)
Fixpoint live_sinks (es : list effect) : list nat :=
  match es with
  | [] => []
  | Popen pid _ :: rest => pid :: live_sinks rest
  | Terminate pid :: rest => remove Nat.eq_dec pid (live_sinks rest)
  | Taskkill :: _ => []
  | _ :: rest => live_sinks rest
  end.

(** Content of [LAST_QUAKE_FILE] as far as this process wrote it. *)
Fixpoint last_quake_file (es : list effect) : option quake_data :=
  match es with
  | [] => None
  | SaveLastQuake d true :: _ => Some d
  | _ :: rest => last_quake_file rest
  end.

(** Entries of [LOG_FILE] as far as this process appended them, newest first. *)
Fixpoint log_entries (es : list effect) : list quake_data :=
  match es with
  | [] => []
  | AppendLog d true :: rest => d :: log_entries rest
  | _ :: rest => log_entries rest
  end.

(** ** The alarm: [play_alarm] and [stop_alarm] *)

(** A block left normally, or by an exception that the enclosing [try]
    catches; both carry the state the block leaves behind. *)
Inductive outcome :=
| Normal (st : State)
| Raised (st : State).

Definition spawn (cmd : list string) (st : State) : State :=
  let pid := popen_count (effects st) in
  set_alarm_process (Some pid) (emit (Popen pid cmd) st).

(** The [for player_cmd in players] loop: the first player that starts
    wins; [FileNotFoundError] moves on to the next; anything else leaves
    the loop as an exception. *)
Fixpoint try_players (env : Env) (players : list (list string)) (st : State)
  : outcome :=
  match players with
  | [] => Normal st
  | player_cmd :: rest =>
      match popen env player_cmd with
      | Started => Normal (spawn player_cmd st)
      | FileNotFound => try_players env rest st
      | PopenError => Raised st
      end
  end.

Definition players (cfg : Config) : list (list string) :=
  [ ["mpg123"; "-q"; "--loop"; "-1"; ALARM_SOUND cfg];
    ["mplayer"; "-loop"; "0"; ALARM_SOUND cfg];
    ["afplay"; ALARM_SOUND cfg] ]%string.

(** The OS-dependent part of the [try] block. *)
Definition start_player (cfg : Config) (env : Env) (st : State) : outcome :=
  match os env with
  | nt =>
      let cmd := ["start"; ""; ALARM_SOUND cfg]%string in
      match popen env cmd with
      | Started => Normal (spawn cmd st)
      | _ => Raised st
      end
  | posix => try_players env (players cfg) st
  | other_os => Normal st
  end.

Definition play_alarm (cfg : Config) (env : Env) (st : State) : State :=
  if is_alarm_active st then st
  else
    let st := emit (LoggerInfo MSG_alerta) st in
    let st := emit (Console MSG_alerta) st in
    let st := emit (Console MSG_how_to_silence) st in
    let st := set_is_alarm_active true st in
    if negb (path_exists env (ALARM_SOUND cfg)) then
      emit (LoggerError (MSG_sound_not_found (ALARM_SOUND cfg))) st
    else
      let handler st :=
        set_is_alarm_active false (emit (LoggerError MSG_play_error) st) in
      match start_player cfg env st with
      | Raised st => handler st
      | Normal st =>
          if timer_start_ok env
          then emit (TimerStart (MAX_ALARM_DURATION cfg)) st
          else handler st
      end.

Definition stop_alarm (env : Env) (st : State) : State :=
  if negb (is_alarm_active st) then st
  else
    let st := set_is_alarm_active false st in
    match alarm_process st with
    | None => st
    | Some pid =>
        if terminate_ok env then
          let st := emit (match os env with nt => Taskkill | _ => Terminate pid end) st in
          let st := set_alarm_process None st in
          let st := emit (LoggerInfo MSG_alarm_stopped) st in
          emit (Console MSG_alarm_stopped) st
        else
          emit (LoggerError MSG_stop_error) st
    end.

(** ** The two data files: [save_last_quake] and [log_earthquake] *)

Definition save_last_quake (env : Env) (quake_data : quake_data) (st : State)
  : State :=
  let st := emit (SaveLastQuake quake_data (save_ok env)) st in
  if save_ok env then st else emit (LoggerError MSG_save_error) st.

Definition log_earthquake (env : Env) (quake_data : quake_data) (st : State)
  : State :=
  let st := emit (AppendLog quake_data (log_ok env)) st in
  if log_ok env then st else emit (LoggerError MSG_log_error) st.

(** What [LAST_QUAKE_FILE] holds when the process starts. *)
Inductive stored_file :=
| NoFile                           (* os.path.exists is false *)
| Unreadable                       (* open or json.load raises *)
| Stored (id : option string).     (* quake_data.get("id") *)

Definition load_last_quake (file : stored_file) (st : State) : State :=
  match file with
  | NoFile => st
  | Unreadable => emit (LoggerError MSG_load_error) st
  | Stored id => set_last_earthquake_id id st
  end.

(** ** The keyboard listener: [handle_keyboard_input] *)

(** [str.lower()] on one character. *)
Definition lower (c : ascii) : ascii :=
  let n := nat_of_ascii c in
  if (65 <=? n)%nat && (n <=? 90)%nat then ascii_of_nat (n + 32) else c.

(** [sys.stdin.read(1)]: the next key, or the empty string at end of input.
    The list holds the keys that will be pressed, in order. *)
Definition read1 (stdin : list ascii) : option ascii * list ascii :=
  match stdin with
  | [] => (None, [])
  | c :: rest => (Some c, rest)
  end.

(** [s.lower() == k] for the string [s] that [read(1)] returned. *)
Definition lower_is (k : ascii) (s : option ascii) : bool :=
  match s with
  | Some c => Ascii.eqb (lower c) k
  | None => false
  end.

(** What the ['q'] branch does. *)
Definition quit (env : Env) (st : State) : State :=
  emit (Console MSG_closing) (stop_alarm env (set_shutdown_requested true st)).

(** The [else] branch of the loop body (Linux/Mac). *)
Definition keyboard_iteration_posix (env : Env) (st : State) (stdin : list ascii)
  : State * list ascii :=
  if negb (tty_ok env) then (st, stdin)
  else
    let (c1, stdin) := read1 stdin in
    if lower_is "a" c1 && is_alarm_active st then (stop_alarm env st, stdin)
    else
      let (c2, stdin) := read1 stdin in
      if lower_is "q" c2 then (quit env st, stdin)
      else (st, stdin).

(** The [os.name == 'nt'] branch of the loop body.  A byte above 127 does
    not decode as UTF-8: the exception is swallowed by the loop. *)
Definition keyboard_iteration_nt (env : Env) (st : State) (stdin : list ascii)
  : State * list ascii :=
  match stdin with
  | [] => (st, [])
  | b :: rest =>
      if (nat_of_ascii b <? 128)%nat then
        let key := Some b in
        if lower_is "a" key && is_alarm_active st then (stop_alarm env st, rest)
        else if lower_is "q" key then (quit env st, rest)
        else (st, rest)
      else (st, rest)
  end.

Definition keyboard_iteration (env : Env) (st : State) (stdin : list ascii)
  : State * list ascii :=
  match os env with
  | nt => keyboard_iteration_nt env st stdin
  | _ => keyboard_iteration_posix env st stdin
  end.

(** [while not shutdown_requested], at most [fuel] iterations. *)
Fixpoint keyboard_loop (fuel : nat) (env : Env) (st : State) (stdin : list ascii)
  : State * list ascii :=
  match fuel with
  | O => (st, stdin)
  | S fuel =>
      if shutdown_requested st then (st, stdin)
      else
        let (st, stdin) := keyboard_iteration env st stdin in
        keyboard_loop fuel env st stdin
  end.

Definition handle_keyboard_input (fuel : nat) (env : Env) (st : State)
  (stdin : list ascii) : State * list ascii :=
  keyboard_loop fuel env (emit (Console MSG_keyboard_help) st) stdin.

Definition signal_handler (env : Env) (st : State) : State :=
  let st := emit (Console MSG_signal_received) st in
  stop_alarm env (set_shutdown_requested true st).

(** ** The alarm as a state machine *)

(** The calls that reach the alarm: [play_alarm] from the poll loop,
    [stop_alarm] from the keyboard or a signal, [stop_alarm] from a timer. *)
Inductive alert_call := Trigger | Acknowledge | Timeout.

Definition alert_step (cfg : Config) (env : Env) (c : alert_call) (st : State)
  : State :=
  match c with
  | Trigger => play_alarm cfg env st
  | Acknowledge => stop_alarm env st
  | Timeout => stop_alarm env st
  end.


(** An environment in which starting a timer and stopping a process work. *)
Definition benign (env : Env) : bool :=
  timer_start_ok env && terminate_ok env.

(** ** [stop_alarm] statement by statement

    The script takes no lock.  [stop_alarm] runs on the keyboard thread and
    on every timer thread, so its statements can interleave.  Each
    constructor is the statement the thread executes next. *)
Inductive stop_pc :=
| At_check_active      (* if not is_alarm_active: return *)
| At_clear_active      (* is_alarm_active = False *)
| At_check_process     (* if alarm_process: *)
| At_terminate         (* alarm_process.terminate()  /  taskkill *)
| At_clear_process     (* alarm_process = None *)
| At_report            (* logger.info(...); print(...) *)
| Returned.

Definition stop_alarm_step (env : Env) (pc : stop_pc) (st : State)
  : stop_pc * State :=
  match pc with
  | At_check_active =>
      if negb (is_alarm_active st) then (Returned, st) else (At_clear_active, st)
  | At_clear_active => (At_check_process, set_is_alarm_active false st)
  | At_check_process =>
      match alarm_process st with
      | None => (Returned, st)
      | Some _ => (At_terminate, st)
      end
  | At_terminate =>
      match os env, alarm_process st with
      | nt, _ =>
          if terminate_ok env then (At_clear_process, emit Taskkill st)
          else (Returned, emit (LoggerError MSG_stop_error) st)
      | _, Some pid =>
          if terminate_ok env then (At_clear_process, emit (Terminate pid) st)
          else (Returned, emit (LoggerError MSG_stop_error) st)
      | _, None =>
          (* the global was cleared meanwhile: AttributeError, caught *)
          (Returned, emit (LoggerError MSG_stop_error) st)
      end
  | At_clear_process => (At_report, set_alarm_process None st)
  | At_report =>
      (Returned, emit (Console MSG_alarm_stopped) (emit (LoggerInfo MSG_alarm_stopped) st))
  | Returned => (Returned, st)
  end.

(** One thread alone, for [n] statements. *)
Fixpoint stop_alarm_steps (n : nat) (env : Env) (pc : stop_pc) (st : State)
  : stop_pc * State :=
  match n with
  | O => (pc, st)
  | S n =>
      let (pc, st) := stop_alarm_step env pc st in
      stop_alarm_steps n env pc st
  end.






(** ** The poll cycle: [check_earthquakes] *)

(** What [requests.get(...)] and [response.json()] give back. *)
Inductive response :=
| RequestException               (* requests.exceptions.RequestException *)
| OtherException                 (* any other exception of the fetch *)
| Json (features : list quake).  (* data.get("features", []) *)

(** [x < y] on the numbers of the feed. *)
Definition Qlt_bool (x y : Q) : bool := negb (Qle_bool y x).

(** The sort key [x["quake"]["properties"]["mag"]]. *)
Definition mag_key (x : nearby) : Q := prop_mag (nq_quake x).

(** [list.sort(key=..., reverse=True)] is a stable sort: elements with equal
    keys keep their order.  Insertion from the right, each element placed
    before the first element whose key is not greater than its own. *)
Fixpoint insert_desc (x : nearby) (sorted : list nearby) : list nearby :=
  match sorted with
  | [] => [x]
  | y :: ys =>
      if Qlt_bool (mag_key x) (mag_key y) then y :: insert_desc x ys
      else x :: y :: ys
  end.

Definition sort_by_mag_desc (l : list nearby) : list nearby :=
  fold_right insert_desc [] l.

(** [quake_id == last_earthquake_id]; the global starts as [None]. *)
Definition same_id (quake_id : string) (last : option string) : bool :=
  match last with
  | Some i => String.eqb quake_id i
  | None => false
  end.

Section Polling.

(** [calculate_distance(lat1, lon1, lat2, lon2)], in km. *)
Variable calculate_distance : Q -> Q -> Q -> Q -> Q.

(** [datetime.fromtimestamp(time_ms/1000).strftime('%Y-%m-%d %H:%M:%S')]. *)
Variable strftime : Z -> string.

Definition distance_of (cfg : Config) (quake : quake) : Q :=
  calculate_distance (LOCATION_latitude cfg) (LOCATION_longitude cfg)
    (coord_lat quake) (coord_lon quake).

(** The [for quake in features] loop; [nearby_quakes] is the list built so
    far, [append] adds at its end. *)
Fixpoint filter_nearby (cfg : Config) (features : list quake)
  (nearby_quakes : list nearby) : list nearby :=
  match features with
  | [] => nearby_quakes
  | quake :: rest =>
      let distance := distance_of cfg quake in
      if Qle_bool distance (MAX_DISTANCE cfg)
      then filter_nearby cfg rest (nearby_quakes ++ [mkNearby quake distance])
      else filter_nearby cfg rest nearby_quakes
  end.

(** The dictionary built from the strongest nearby event. *)
Definition quake_data_of (strongest : nearby) : quake_data :=
  let quake_obj := nq_quake strongest in
  {| qd_id := quake_id quake_obj;
     qd_magnitude := prop_mag quake_obj;
     qd_depth := coord_depth quake_obj;
     qd_location := prop_place quake_obj;
     qd_time := strftime (prop_time quake_obj);
     qd_distance := nq_distance strongest |}.

Definition check_earthquakes (cfg : Config) (env : Env) (resp : response)
  (st : State) : State :=
  match resp with
  | RequestException =>
      emit (Console MSG_connection_error) (emit (LoggerError MSG_api_error) st)
  | OtherException =>
      emit (Console MSG_error) (emit (LoggerError MSG_check_error) st)
  | Json [] => emit (Console MSG_no_recent) st
  | Json features =>
      match filter_nearby cfg features [] with
      | [] => emit (Console MSG_no_nearby) st
      | nearby_quakes =>
          match sort_by_mag_desc nearby_quakes with
          | [] =>
              (* nearby_quakes[0] on an empty list: IndexError, caught *)
              emit (Console MSG_error) (emit (LoggerError MSG_check_error) st)
          | strongest :: _ =>
              let quake_obj := nq_quake strongest in
              if same_id (quake_id quake_obj) (last_earthquake_id st) then st
              else
                let quake_data := quake_data_of strongest in
                let st := set_last_earthquake_id (Some (quake_id quake_obj)) st in
                let st := save_last_quake env quake_data st in
                let st := log_earthquake env quake_data st in
                let st := emit (Console (MSG_quake_info quake_data)) st in
                if Qle_bool (EVACUATION_MAGNITUDE cfg) (qd_magnitude quake_data)
                then play_alarm cfg env st
                else emit (Console MSG_no_evacuation) st
          end
      end
  end.

(** The state a new strongest event is handed to the threshold test in. *)
Definition reported (env : Env) (strongest : nearby) (st : State) : State :=
  let quake_data := quake_data_of strongest in
  let st := set_last_earthquake_id (Some (qd_id quake_data)) st in
  let st := save_last_quake env quake_data st in
  let st := log_earthquake env quake_data st in
  emit (Console (MSG_quake_info quake_data)) st.

(** The poll loop of [main]: one cycle per fetched response, until
    [shutdown_requested] is seen. *)
Fixpoint poll_loop (cfg : Config) (cycles : list (Env * response)) (st : State)
  : State :=
  match cycles with
  | [] => st
  | (env, resp) :: rest =>
      if shutdown_requested st then st
      else poll_loop cfg rest (check_earthquakes cfg env resp st)
  end.

(** [distance <= CONFIG["MAX_DISTANCE"]]. *)
Definition within (cfg : Config) (quake : quake) : bool :=
  Qle_bool (distance_of cfg quake) (MAX_DISTANCE cfg).

(** The entry appended for a retained event. *)
Definition evaluated (cfg : Config) (quake : quake) : nearby :=
  mkNearby quake (distance_of cfg quake).

End Polling.

(** ** The process as a whole: [main] and the other threads

    Besides the main thread there are the keyboard thread (a loop of
    [keyboard_iteration]), the signal handler and one timer thread per
    armed timer.  Here they take turns call by call: whatever the others do
    happens between two calls of the main thread.  Every run of this model
    is a run of the script; runs in which two calls overlap are those of
    [stop_alarm_step]. *)
Inductive async_event :=
| SignalArrives     (* SIGINT or SIGTERM: signal_handler runs *)
| TimerFires        (* the callback of a pending Timer: stop_alarm *)
| KeyboardTurn.     (* one iteration of the loop of handle_keyboard_input *)

Record System := mkSystem {
  sys_state : State;          (* the globals and the effects *)
  sys_stdin : list ascii;     (* keys not read yet *)
  sys_fired : nat             (* timers whose callback has run *)
}.

Definition async_step (env : Env) (e : async_event) (sys : System) : System :=
  let st := sys_state sys in
  match e with
  | SignalArrives =>
      mkSystem (signal_handler env st) (sys_stdin sys) (sys_fired sys)
  | TimerFires =>
      if (sys_fired sys <? timer_count (effects st))%nat
      then mkSystem (stop_alarm env st) (sys_stdin sys) (S (sys_fired sys))
      else sys
  | KeyboardTurn =>
      if shutdown_requested st then sys
      else
        let (st', rest) := keyboard_iteration env st (sys_stdin sys) in
        mkSystem st' rest (sys_fired sys)
  end.

Definition async_run (env : Env) (events : list async_event) (sys : System)
  : System :=
  fold_left (fun sys e => async_step env e sys) events sys.

(** One pass through the body of the [while] loop of [main]. *)
Record wake := mkWake {
  wake_time : Q;                     (* time.time() at the top of the body *)
  wake_env : Env;
  wake_resp : response;              (* what the fetch gives if this pass checks *)
  wake_events : list async_event     (* during time.sleep(1) *)
}.

(** Where [main] stands: the system, the clock readings of the passes that
    called [check_earthquakes] (newest first), and whether the loop was left
    (the final line is printed exactly then). *)
Record run := mkRun {
  run_sys : System;
  run_checks : list Q;
  run_exited : bool
}.

Section Main.

Variable calculate_distance : Q -> Q -> Q -> Q -> Q.
Variable strftime : Z -> string.

Definition check_in (cfg : Config) (env : Env) (resp : response) (sys : System)
  : System :=
  mkSystem (check_earthquakes calculate_distance strftime cfg env resp (sys_state sys))
    (sys_stdin sys) (sys_fired sys).

(** The [while not shutdown_requested] loop, as far as [wakes] reaches. *)
Fixpoint main_loop (cfg : Config) (wakes : list wake) (last_check : Q)
  (sys : System) (checks : list Q) : run :=
  match wakes with
  | [] => mkRun sys checks (shutdown_requested (sys_state sys))
  | w :: rest =>
      if shutdown_requested (sys_state sys) then mkRun sys checks true
      else
        let current_time := wake_time w in
        let elapsed := current_time - last_check in
        if Qle_bool (inject_Z (CHECK_INTERVAL cfg)) elapsed then
          let sys := check_in cfg (wake_env w) (wake_resp w) sys in
          main_loop cfg rest current_time
            (async_run (wake_env w) (wake_events w) sys) (current_time :: checks)
        else
          main_loop cfg rest last_check
            (async_run (wake_env w) (wake_events w) sys) checks
  end.

(** The state in which the loop is entered: the file is loaded, the
    keyboard thread has started and printed its help line, the first check
    is done; [events] is what the other threads did meanwhile.  (The banner
    of [main] is six constant lines on the console.) *)
Definition main_start (cfg : Config) (file : stored_file) (env : Env)
  (resp : response) (events : list async_event) (keys : list ascii) : System :=
  let st := load_last_quake file initial_state in
  let st := emit (Console MSG_keyboard_help) st in
  let st := check_earthquakes calculate_distance strftime cfg env resp st in
  async_run env events (mkSystem st keys 0).

(** [main]: [now] is the clock reading taken after the first check. *)
Definition main (cfg : Config) (file : stored_file) (env : Env)
  (resp : response) (events : list async_event) (keys : list ascii)
  (now : Q) (wakes : list wake) : run :=
  main_loop cfg wakes now (main_start cfg file env resp events keys) [].

End Main.

(** ** Sample data *)

(** A stand-in for the haversine distance: 111 km per degree along each
    axis, added up. *)
Definition grid_distance (lat1 lon1 lat2 lon2 : Q) : Q :=
  111 * (Qabs (lat2 - lat1) + Qabs (lon2 - lon1)).

Definition show_time (t : Z) : string := "2024-01-01 00:00:00"%string.

Definition env_posix : Env :=
  {| os := posix;
     path_exists := fun _ => true;
     popen := fun cmd =>
       match cmd with
       | p :: _ => if String.eqb p "mpg123" then Started else FileNotFound
       | [] => FileNotFound
       end;
     timer_start_ok := true;
     terminate_ok := true;
     save_ok := true;
     log_ok := true;
     tty_ok := true |}.

(** The sound file is not there. *)
Definition env_no_sound : Env :=
  {| os := posix;
     path_exists := fun _ => false;
     popen := popen env_posix;
     timer_start_ok := true;
     terminate_ok := true;
     save_ok := true;
     log_ok := true;
     tty_ok := true |}.

(** None of mpg123, mplayer, afplay is installed. *)
Definition env_no_player : Env :=
  {| os := posix;
     path_exists := fun _ => true;
     popen := fun _ => FileNotFound;
     timer_start_ok := true;
     terminate_ok := true;
     save_ok := true;
     log_ok := true;
     tty_ok := true |}.

Definition env_nt : Env :=
  {| os := nt;
     path_exists := fun _ => true;
     popen := fun _ => Started;
     timer_start_ok := true;
     terminate_ok := true;
     save_ok := true;
     log_ok := true;
     tty_ok := true |}.

(** An alarm that is sounding: the state after one successful trigger. *)
Definition sounding : State := play_alarm CONFIG env_posix initial_state.


Definition quake_a : quake :=
  {| quake_id := "us7000a"; prop_mag := 3; prop_place := "10 km S of Bogota";
     prop_time := 1700000000000%Z;
     coord_lon := - (740817 # 10000); coord_lat := (46097 # 10000) - (1 # 10);
     coord_depth := 10 |}.

Definition quake_b : quake :=
  {| quake_id := "us7000b"; prop_mag := 51 # 10; prop_place := "50 km N of Bogota";
     prop_time := 1700000100000%Z;
     coord_lon := - (740817 # 10000); coord_lat := (46097 # 10000) + (45 # 100);
     coord_depth := 35 |}.

Definition quake_c : quake :=
  {| quake_id := "us7000c"; prop_mag := 51 # 10; prop_place := "Villavicencio";
     prop_time := 1700000200000%Z;
     coord_lon := - (740817 # 10000) + (4 # 10); coord_lat := 46097 # 10000;
     coord_depth := 20 |}.

(** Far away: more than 300 km on the grid. *)
Definition quake_far : quake :=
  {| quake_id := "us7000z"; prop_mag := 7; prop_place := "Lima";
     prop_time := 1700000300000%Z;
     coord_lon := - (770000 # 10000); coord_lat := - (12);
     coord_depth := 40 |}.

Definition feed : list quake := [quake_a; quake_b; quake_far; quake_c].

(** Due north of the location, 299 km and 301 km away on the grid. *)
Definition quake_near_edge : quake :=
  {| quake_id := "us7000n"; prop_mag := 5; prop_place := "north, inside";
     prop_time := 1700000400000%Z;
     coord_lon := - (740817 # 10000); coord_lat := (46097 # 10000) + (299 # 111);
     coord_depth := 15 |}.

Definition quake_past_edge : quake :=
  {| quake_id := "us7000p"; prop_mag := 6; prop_place := "north, outside";
     prop_time := 1700000500000%Z;
     coord_lon := - (740817 # 10000); coord_lat := (46097 # 10000) + (301 # 111);
     coord_depth := 15 |}.

Definition edge_feed : list quake := [quake_near_edge; quake_past_edge].

(** The state after a first poll cycle over [feed]. *)
Definition after_first_cycle : State :=
  check_earthquakes grid_distance show_time CONFIG env_posix (Json feed)
    initial_state.

(** mpg123 is not installed, mplayer is. *)
Definition env_mplayer : Env :=
  {| os := posix;
     path_exists := fun _ => true;
     popen := fun cmd =>
       match cmd with
       | p :: _ => if String.eqb p "mplayer" then Started else FileNotFound
       | [] => FileNotFound
       end;
     timer_start_ok := true;
     terminate_ok := true;
     save_ok := true;
     log_ok := true;
     tty_ok := true |}.

(** mpg123 is installed but cannot be executed; mplayer would start. *)
Definition env_broken_mpg123 : Env :=
  {| os := posix;
     path_exists := fun _ => true;
     popen := fun cmd =>
       match cmd with
       | p :: _ => if String.eqb p "mpg123" then PopenError else Started
       | [] => FileNotFound
       end;
     timer_start_ok := true;
     terminate_ok := true;
     save_ok := true;
     log_ok := true;
     tty_ok := true |}.

(** [terminate()] raises. *)
Definition env_terminate_fails : Env :=
  {| os := posix;
     path_exists := fun _ => true;
     popen := popen env_posix;
     timer_start_ok := true;
     terminate_ok := false;
     save_ok := true;
     log_ok := true;
     tty_ok := true |}.

(** Standard input is not a terminal. *)
Definition env_no_tty : Env :=
  {| os := posix;
     path_exists := fun _ => true;
     popen := popen env_posix;
     timer_start_ok := true;
     terminate_ok := true;
     save_ok := true;
     log_ok := true;
     tty_ok := false |}.

(** A feed whose strongest nearby event is [quake_a]. *)
Definition feed_a : list quake := [quake_a; quake_far].

(** A feed whose strongest nearby event is [quake_c]. *)
Definition feed_c : list quake := [quake_a; quake_c].

(** Three passes of the loop of [main]: five seconds after the start the
    keyboard thread gets a turn; twelve seconds after it the feed is due, a
    termination signal arrives and the timer fires after it; a third pass
    would follow. *)
Definition wake_early : wake :=
  {| wake_time := 5; wake_env := env_posix; wake_resp := Json feed;
     wake_events := [KeyboardTurn] |}.

Definition wake_signal : wake :=
  {| wake_time := 12; wake_env := env_posix; wake_resp := Json feed_c;
     wake_events := [SignalArrives; TimerFires] |}.

Definition wake_late : wake :=
  {| wake_time := 30; wake_env := env_posix; wake_resp := Json feed;
     wake_events := [] |}.

Definition sample_run (wakes : list wake) : run :=
  main grid_distance show_time CONFIG NoFile env_posix (Json feed_a) []
    ["x"; "y"]%char 0 wakes.

Local Close Scope Q_scope.

(** ** Vocabulary of the properties *)

(** The state in which the [try] block of [play_alarm] starts. *)
Definition announced (st : State) : State :=
  set_is_alarm_active true
    (emit (Console MSG_how_to_silence)
       (emit (Console MSG_alerta) (emit (LoggerInfo MSG_alerta) st))).

(** The [except Exception] handler of [play_alarm]. *)
Definition play_handler (st : State) : State :=
  set_is_alarm_active false (emit (LoggerError MSG_play_error) st).

Definition outcome_state (o : outcome) : State :=
  match o with Normal st => st | Raised st => st end.

(** The effects a block added on top of the ones it found. *)
Definition extends (new : list effect) (st st' : State) : Prop :=
  effects st' = new ++ effects st.

(** Effects that touch neither a process nor a data file. *)
Definition is_report (e : effect) : bool :=
  match e with
  | LoggerInfo _ | LoggerError _ | Console _ | TimerStart _ => true
  | _ => false
  end.

(** Effects that neither write a data file nor stop a process. *)
Definition harmless (e : effect) : bool := is_report e || is_popen e.

Definition is_save (e : effect) : bool :=
  match e with SaveLastQuake _ _ => true | _ => false end.

Definition is_logger_error (e : effect) : bool :=
  match e with LoggerError _ => true | _ => false end.

(** The handle, as the list of processes it names. *)
Definition handle_sinks (st : State) : list nat :=
  match alarm_process st with
  | Some pid => [pid]
  | None => []
  end.

(** The live sinks are exactly the one the handle names, and an idle alarm
    holds no handle. *)
Definition one_sink (st : State) : Prop :=
  live_sinks (effects st) = handle_sinks st /\
  (is_alarm_active st = false -> alarm_process st = None).



(** [a] may stand before [b] in a list sorted by descending magnitude. *)
Definition mag_ge (a b : nearby) : Prop := (mag_key b <= mag_key a)%Q.

(** A byte on which the Windows branch of the listener quits. *)
Definition is_quit_key_nt (b : ascii) : bool :=
  (nat_of_ascii b <? 128) && Ascii.eqb (lower b) "q".



(** Each clock reading in [checks] (newest first) is at least [interval]
    after the one before it, the oldest after [base]. *)
Fixpoint spaced (interval base : Q) (checks : list Q) : Prop :=
  match checks with
  | [] => True
  | c :: earlier =>
      (interval <= c - hd base earlier)%Q /\ spaced interval base earlier
  end.

(** An effect that neither starts nor stops a process. *)
Definition no_process (e : effect) : bool :=
  match e with
  | Popen _ _ | Terminate _ | Taskkill => false
  | _ => true
  end.


(** The stored identifier is that of the record last written, or, when
    nothing was written yet, the one [loaded] at the start. *)
Definition id_matches_file (loaded : option string) (st : State) : Prop :=
  last_earthquake_id st =
    match last_quake_file (effects st) with
    | Some d => Some (qd_id d)
    | None => loaded
    end.

(** The records handed to [save_last_quake], newest first, written or not. *)
Fixpoint save_attempts (es : list effect) : list quake_data :=
  match es with
  | [] => []
  | SaveLastQuake d _ :: rest => d :: save_attempts rest
  | _ :: rest => save_attempts rest
  end.

(** The records handed to [log_earthquake], newest first, written or not. *)
Fixpoint log_attempts (es : list effect) : list quake_data :=
  match es with
  | [] => []
  | AppendLog d _ :: rest => d :: log_attempts rest
  | _ :: rest => log_attempts rest
  end.

(** Saved and logged are the same records in the same order. *)
Definition logged_as_saved (st : State) : Prop :=
  save_attempts (effects st) = log_attempts (effects st).

(** Splits [play_alarm] into its paths: flag, sound file, operating system,
    what each player's [Popen] does, the timer. *)
Ltac play_paths cfg env st :=
  unfold play_alarm, start_player, players, try_players, spawn;
  destruct (is_alarm_active st) eqn:?; simpl;
  [ | destruct (path_exists env (ALARM_SOUND cfg)) eqn:?; simpl;
      [ destruct (os env) eqn:?; simpl;
        repeat match goal with
          | |- context [match popen env ?c with _ => _ end] =>
              destruct (popen env c) eqn:?; simpl
          end;
        destruct (timer_start_ok env) eqn:?; simpl
      | ] ].

(** * Properties *)

(** ** Bookkeeping on states and effects *)

Lemma extends_emit (e : effect) (new : list effect) (st st' : State) :
  extends new st st' -> extends (e :: new) st (emit e st').
Proof. unfold extends; simpl; intros ->; reflexivity. Qed.

Lemma extends_set_active (b : bool) (new : list effect) (st st' : State) :
  extends new st st' -> extends new st (set_is_alarm_active b st').
Proof. exact (fun H => H). Qed.



(** ** [stop_alarm] *)

Lemma stop_alarm_idle (env : Env) (st : State) :
  is_alarm_active (stop_alarm env st) = false.
Proof.
  unfold stop_alarm.
  destruct (is_alarm_active st) eqn:Hact; simpl; [ | exact Hact ].
  destruct (alarm_process st); simpl; [ destruct (terminate_ok env) | ]; reflexivity.
Qed.

Lemma stop_alarm_when_idle (env : Env) (st : State) :
  is_alarm_active st = false -> stop_alarm env st = st.
Proof. intros H; unfold stop_alarm; rewrite H; reflexivity. Qed.


(** The statement-by-statement reading of [stop_alarm], run by one thread
    alone, is [stop_alarm]. *)
Lemma stop_alarm_steps_sequential (env : Env) (st : State) :
  stop_alarm_steps 6 env At_check_active st = (Returned, stop_alarm env st).
Proof.
  unfold stop_alarm; simpl.
  destruct (is_alarm_active st); simpl; [ | reflexivity ].
  destruct (alarm_process st) as [pid | ] eqn:Hproc; simpl; [ | reflexivity ].
  destruct (os env), (terminate_ok env); simpl; rewrite ?Hproc; reflexivity.
Qed.



(** ** [play_alarm] *)

Lemma play_alarm_when_active (cfg : Config) (env : Env) (st : State) :
  is_alarm_active st = true -> play_alarm cfg env st = st.
Proof. intros H; unfold play_alarm; rewrite H; reflexivity. Qed.

Lemma play_alarm_last_earthquake_id (cfg : Config) (env : Env) (st : State) :
  last_earthquake_id (play_alarm cfg env st) = last_earthquake_id st.
Proof. play_paths cfg env st; reflexivity. Qed.

Lemma play_alarm_shutdown_requested (cfg : Config) (env : Env) (st : State) :
  shutdown_requested (play_alarm cfg env st) = shutdown_requested st.
Proof. play_paths cfg env st; reflexivity. Qed.

Lemma play_alarm_unfold (cfg : Config) (env : Env) (st : State) :
  is_alarm_active st = false ->
  play_alarm cfg env st =
    if negb (path_exists env (ALARM_SOUND cfg)) then
      emit (LoggerError (MSG_sound_not_found (ALARM_SOUND cfg))) (announced st)
    else
      match start_player cfg env (announced st) with
      | Raised st' => play_handler st'
      | Normal st' =>
          if timer_start_ok env
          then emit (TimerStart (MAX_ALARM_DURATION cfg)) st'
          else play_handler st'
      end.
Proof. intros H; unfold play_alarm; rewrite H; reflexivity. Qed.

Lemma try_players_extends (env : Env) (cmds : list (list string)) (st : State) :
  exists new,
    extends new st (outcome_state (try_players env cmds st)) /\
    forallb harmless new = true.
Proof.
  induction cmds as [ | cmd rest IH ]; simpl.
  - exists []; split; reflexivity.
  - destruct (popen env cmd); simpl.
    + exists [Popen (popen_count (effects st)) cmd]; split; reflexivity.
    + exact IH.
    + exists []; split; reflexivity.
Qed.

Lemma start_player_extends (cfg : Config) (env : Env) (st : State) :
  exists new,
    extends new st (outcome_state (start_player cfg env st)) /\
    forallb harmless new = true.
Proof.
  unfold start_player. destruct (os env).
  - destruct (popen env _); simpl.
    + eexists [Popen _ _]; split; reflexivity.
    + exists []; split; reflexivity.
    + exists []; split; reflexivity.
  - apply try_players_extends.
  - exists []; split; reflexivity.
Qed.

(** [play_alarm] only adds effects, and none of them writes a data file or
    stops a process. *)
Lemma play_alarm_extends (cfg : Config) (env : Env) (st : State) :
  exists new,
    extends new st (play_alarm cfg env st) /\ forallb harmless new = true.
Proof.
  destruct (is_alarm_active st) eqn:Hact.
  - rewrite play_alarm_when_active by exact Hact. exists []; split; reflexivity.
  - rewrite play_alarm_unfold by exact Hact.
    destruct (path_exists env (ALARM_SOUND cfg)); simpl.
    + destruct (start_player_extends cfg env (announced st)) as [new [Hext Hall]].
      assert (Hann : effects (announced st) =
                [Console MSG_how_to_silence; Console MSG_alerta; LoggerInfo MSG_alerta]
                ++ effects st) by reflexivity.
      unfold extends in Hext. rewrite Hann, app_assoc in Hext.
      assert (Hall' : forallb harmless
                (new ++ [Console MSG_how_to_silence; Console MSG_alerta;
                         LoggerInfo MSG_alerta]) = true)
        by (rewrite forallb_app, Hall; reflexivity).
      destruct (start_player cfg env (announced st)) as [st' | st']; simpl in Hext.
      * destruct (timer_start_ok env).
        -- eexists (TimerStart _ :: _); split;
             [ apply extends_emit; exact Hext | exact Hall' ].
        -- eexists (LoggerError _ :: _); split;
             [ apply extends_set_active, extends_emit; exact Hext | exact Hall' ].
      * eexists (LoggerError _ :: _); split;
          [ apply extends_set_active, extends_emit; exact Hext | exact Hall' ].
    + eexists [_; _; _; _]; split; reflexivity.
Qed.



(** ** Calls that run one after the other *)

Lemma try_players_cases (env : Env) (cmds : list (list string)) (st : State) :
  try_players env cmds st = Normal st \/
  (exists cmd, try_players env cmds st = Normal (spawn cmd st)) \/
  try_players env cmds st = Raised st.
Proof.
  induction cmds as [ | cmd rest IH ]; simpl.
  - left; reflexivity.
  - destruct (popen env cmd).
    + right; left; exists cmd; reflexivity.
    + exact IH.
    + right; right; reflexivity.
Qed.

Lemma start_player_cases (cfg : Config) (env : Env) (st : State) :
  start_player cfg env st = Normal st \/
  (exists cmd, start_player cfg env st = Normal (spawn cmd st)) \/
  start_player cfg env st = Raised st.
Proof.
  unfold start_player. destruct (os env).
  - destruct (popen env _).
    + right; left; eexists; reflexivity.
    + right; right; reflexivity.
    + right; right; reflexivity.
  - apply try_players_cases.
  - left; reflexivity.
Qed.

Lemma one_sink_initial : one_sink initial_state.
Proof. split; reflexivity. Qed.

Lemma one_sink_play_alarm (cfg : Config) (env : Env) (st : State) :
  timer_start_ok env = true ->
  one_sink st -> one_sink (play_alarm cfg env st).
Proof.
  intros Htimer.
  destruct (is_alarm_active st) eqn:Hact; intros Hinv.
  - rewrite play_alarm_when_active by exact Hact. exact Hinv.
  - destruct Hinv as [Hlive Hidle]. specialize (Hidle Hact).
    unfold handle_sinks in Hlive; rewrite Hidle in Hlive.
    rewrite play_alarm_unfold by exact Hact. rewrite Htimer.
    destruct (path_exists env (ALARM_SOUND cfg)); simpl.
    + destruct (start_player_cases cfg env (announced st))
        as [-> | [[cmd ->] | ->]];
        unfold one_sink, handle_sinks; simpl; rewrite ?Hidle, ?Hlive;
        split; (reflexivity || discriminate || auto).
    + unfold one_sink, handle_sinks; simpl; rewrite Hidle, Hlive.
      split; [ reflexivity | discriminate ].
Qed.

Lemma one_sink_stop_alarm (env : Env) (st : State) :
  terminate_ok env = true ->
  one_sink st -> one_sink (stop_alarm env st).
Proof.
  intros Hterm Hinv. unfold stop_alarm.
  destruct (negb (is_alarm_active st)); [ exact Hinv | ].
  destruct Hinv as [Hlive Hidle]. simpl.
  unfold handle_sinks in Hlive.
  destruct (alarm_process st) as [pid | ] eqn:Hproc; simpl.
  - rewrite Hterm. unfold one_sink, handle_sinks; simpl.
    split; [ | reflexivity ].
    destruct (os env); simpl; rewrite ?Hlive; simpl;
      try reflexivity; destruct (Nat.eq_dec pid pid); congruence.
  - unfold one_sink, handle_sinks; simpl. rewrite Hproc.
    split; [ exact Hlive | reflexivity ].
Qed.









Lemma one_sink_length (st : State) :
  one_sink st -> List.length (live_sinks (effects st)) <= 1.
Proof.
  intros [-> _]. unfold handle_sinks. destruct (alarm_process st); simpl; lia.
Qed.




(** ** Failing to start the sink *)

(** The [return] under the existence test leaves the flag as the line
    before the [try] set it. *)
Lemma play_alarm_sound_missing (cfg : Config) (env : Env) (st : State) :
  is_alarm_active st = false ->
  path_exists env (ALARM_SOUND cfg) = false ->
  play_alarm cfg env st =
    emit (LoggerError (MSG_sound_not_found (ALARM_SOUND cfg))) (announced st).
Proof.
  intros Hact Hexists. rewrite play_alarm_unfold by exact Hact.
  rewrite Hexists; reflexivity.
Qed.

(** The [except Exception] handler does reset the flag. *)
Lemma play_alarm_exception_resets_flag (cfg : Config) (env : Env) (st : State) :
  is_alarm_active st = false ->
  path_exists env (ALARM_SOUND cfg) = true ->
  (exists st', start_player cfg env (announced st) = Raised st') ->
  is_alarm_active (play_alarm cfg env st) = false /\
  existsb is_logger_error (effects (play_alarm cfg env st)) = true.
Proof.
  intros Hact Hexists [st' Hraised]. rewrite play_alarm_unfold by exact Hact.
  rewrite Hexists, Hraised; simpl. split; reflexivity.
Qed.

(** When the sound file is there and nothing raises, the timer is armed
    with [MAX_ALARM_DURATION] and the alarm is active. *)
Lemma play_alarm_arms_timer (cfg : Config) (env : Env) (st : State) :
  is_alarm_active st = false ->
  path_exists env (ALARM_SOUND cfg) = true ->
  timer_start_ok env = true ->
  (forall st', start_player cfg env (announced st) <> Raised st') ->
  is_alarm_active (play_alarm cfg env st) = true /\
  exists rest,
    effects (play_alarm cfg env st) = TimerStart (MAX_ALARM_DURATION cfg) :: rest.
Proof.
  intros Hact Hexists Htimer Hnormal. rewrite play_alarm_unfold by exact Hact.
  rewrite Hexists, Htimer; simpl.
  destruct (start_player_cases cfg env (announced st))
    as [Heq | [[cmd Heq] | Heq]]; rewrite Heq.
  - split; [ reflexivity | eexists; reflexivity ].
  - split; [ reflexivity | eexists; reflexivity ].
  - elim (Hnormal _ Heq).
Qed.

(** When no player is installed the loop ends without a process and without
    an exception: the timer is armed all the same and nothing is logged. *)
Lemma try_players_all_missing (env : Env) (cmds : list (list string))
  (st : State) :
  (forall cmd, In cmd cmds -> popen env cmd = FileNotFound) ->
  try_players env cmds st = Normal st.
Proof.
  induction cmds as [ | cmd rest IH ]; intros Hall; simpl.
  - reflexivity.
  - rewrite (Hall cmd) by (left; reflexivity).
    apply IH. intros c Hc. apply Hall. right; exact Hc.
Qed.

Lemma play_alarm_no_player (cfg : Config) (env : Env) (st : State) :
  is_alarm_active st = false ->
  os env = posix ->
  path_exists env (ALARM_SOUND cfg) = true ->
  (forall cmd, In cmd (players cfg) -> popen env cmd = FileNotFound) ->
  timer_start_ok env = true ->
  play_alarm cfg env st =
    emit (TimerStart (MAX_ALARM_DURATION cfg)) (announced st).
Proof.
  intros Hact Hos Hexists Hall Htimer. rewrite play_alarm_unfold by exact Hact.
  rewrite Hexists; simpl. unfold start_player. rewrite Hos.
  rewrite try_players_all_missing by exact Hall. rewrite Htimer. reflexivity.
Qed.

(** A trigger that leaves the alarm active has armed the timer, unless the
    sound file was missing. *)
Lemma play_alarm_timer_or_missing_sound (cfg : Config) (env : Env) (st : State) :
  is_alarm_active st = false ->
  is_alarm_active (play_alarm cfg env st) = true ->
  (path_exists env (ALARM_SOUND cfg) = true /\
   exists rest,
     effects (play_alarm cfg env st) = TimerStart (MAX_ALARM_DURATION cfg) :: rest) \/
  (path_exists env (ALARM_SOUND cfg) = false /\
   timer_count (effects (play_alarm cfg env st)) = timer_count (effects st)).
Proof.
  intros Hact. rewrite play_alarm_unfold by exact Hact.
  destruct (path_exists env (ALARM_SOUND cfg)); simpl.
  - intros Hafter. left. split; [ reflexivity | ].
    destruct (start_player_cases cfg env (announced st))
      as [Heq | [[cmd Heq] | Heq]]; rewrite Heq in *;
      destruct (timer_start_ok env); simpl in Hafter; try discriminate Hafter;
      eexists; reflexivity.
  - intros _. right. split; reflexivity.
Qed.

(** The timer's callback is [stop_alarm] itself: a timeout takes the path of
    an acknowledge and leaves the alarm idle. *)
Lemma timeout_is_acknowledge (cfg : Config) (env : Env) (st : State) :
  alert_step cfg env Timeout st = alert_step cfg env Acknowledge st /\
  is_alarm_active (alert_step cfg env Timeout st) = false.
Proof. split; [ reflexivity | apply stop_alarm_idle ]. Qed.

(** C1.  The code at the failing inputs.  With the sound file missing the
    error is logged and no process is started, but the flag stays set: the
    alarm is left active.  With no player installed the flag stays set as
    well, a timer is armed and no error is logged at all. *)
Theorem play_alarm_failed_start_stays_active :
  let st := play_alarm CONFIG env_no_sound initial_state in
  let st' := play_alarm CONFIG env_no_player initial_state in
  (is_alarm_active st = true /\ alarm_process st = None /\
   popen_count (effects st) = 0 /\
   existsb is_logger_error (effects st) = true) /\
  (is_alarm_active st' = true /\ alarm_process st' = None /\
   popen_count (effects st') = 0 /\ timer_count (effects st') = 1 /\
   existsb is_logger_error (effects st') = false).
Proof. vm_compute. repeat split. Qed.

(** ** The keyboard *)

(** On Windows one key is read, and ['q'] alone requests the shutdown. *)
Lemma keyboard_nt_quits_on_q (env : Env) (st : State) (k : ascii)
  (rest : list ascii) :
  os env = nt -> lower k = "q"%char -> (nat_of_ascii k < 128) ->
  keyboard_iteration env st (k :: rest) = (quit env st, rest).
Proof.
  intros Hos Hq Hascii. unfold keyboard_iteration, keyboard_iteration_nt.
  rewrite Hos. apply Nat.ltb_lt in Hascii. rewrite Hascii.
  unfold lower_is. rewrite Hq. reflexivity.
Qed.

(** Elsewhere the first key is compared with ['a'] only; whatever it was, a
    second key is read and compared with ['q']. *)
Lemma keyboard_posix_reads_twice (env : Env) (st : State) (k1 k2 : ascii)
  (rest : list ascii) :
  os env <> nt -> tty_ok env = true ->
  lower_is "a" (Some k1) && is_alarm_active st = false ->
  keyboard_iteration env st (k1 :: k2 :: rest) =
    (if lower_is "q" (Some k2) then quit env st else st, rest).
Proof.
  intros Hos Htty Hnot. unfold keyboard_iteration.
  assert (Hposix : keyboard_iteration_posix env st (k1 :: k2 :: rest) =
                   (if lower_is "q" (Some k2) then quit env st else st, rest)).
  { unfold keyboard_iteration_posix. rewrite Htty; simpl.
    simpl in Hnot. rewrite Hnot.
    destruct (Ascii.eqb (lower k2) "q"); reflexivity. }
  destruct (os env); [ congruence | exact Hposix | exact Hposix ].
Qed.

(** C8.  The code at the failing input.  On Linux/Mac the key ['q'] is
    consumed by the comparison with ['a']; the iteration then reads a second
    key, here ['x'], and the shutdown flag stays unset.  Two reads happened
    in the one iteration.  The Windows branch, given the same first key,
    requests the shutdown. *)
Theorem posix_single_q_does_not_quit :
  keyboard_iteration env_posix initial_state ["q"; "x"]%char
    = (initial_state, []) /\
  shutdown_requested
    (fst (keyboard_iteration env_posix initial_state ["q"; "x"]%char)) = false /\
  shutdown_requested
    (fst (keyboard_iteration env_nt initial_state ["q"; "x"]%char)) = true /\
  snd (keyboard_iteration env_nt initial_state ["q"; "x"]%char) = ["x"%char].
Proof. vm_compute. repeat split. Qed.

(** ** Sorting by magnitude *)

Lemma Qlt_bool_iff (x y : Q) : Qlt_bool x y = true <-> (x < y)%Q.
Proof.
  unfold Qlt_bool. rewrite negb_true_iff. split.
  - intros H. apply Qnot_le_lt. intros Hle.
    apply Qle_bool_iff in Hle. congruence.
  - intros H. destruct (Qle_bool y x) eqn:E; [ | reflexivity ].
    apply Qle_bool_iff in E. elim (Qlt_not_le _ _ H E).
Qed.

Lemma Qlt_bool_false_iff (x y : Q) : Qlt_bool x y = false <-> (y <= x)%Q.
Proof.
  unfold Qlt_bool. rewrite negb_false_iff. apply Qle_bool_iff.
Qed.


(** The head of the sorted list, one insertion at a time. *)
Lemma hd_insert_desc (x : nearby) (l : list nearby) :
  hd_error (insert_desc x l) =
    match hd_error l with
    | None => Some x
    | Some y => Some (if Qlt_bool (mag_key x) (mag_key y) then y else x)
    end.
Proof.
  destruct l as [ | y ys ]; simpl; [ reflexivity | ].
  destruct (Qlt_bool (mag_key x) (mag_key y)); reflexivity.
Qed.

Lemma insert_desc_perm (x : nearby) (l : list nearby) :
  Permutation (x :: l) (insert_desc x l).
Proof.
  induction l as [ | y ys IH ]; simpl.
  - apply Permutation_refl.
  - destruct (Qlt_bool (mag_key x) (mag_key y)).
    + eapply perm_trans;
        [ apply perm_swap | apply perm_skip, IH ].
    + apply Permutation_refl.
Qed.

(** The sort keeps the elements ... *)
Lemma sort_by_mag_desc_perm (l : list nearby) :
  Permutation l (sort_by_mag_desc l).
Proof.
  induction l as [ | x l IH ]; simpl.
  - apply perm_nil.
  - eapply perm_trans;
      [ apply perm_skip, IH | apply insert_desc_perm ].
Qed.

Lemma insert_desc_sorted (x : nearby) (l : list nearby) :
  LocallySorted mag_ge l -> LocallySorted mag_ge (insert_desc x l).
Proof.
  induction 1 as [ | y | y z l Hl IH Hyz ]; simpl.
  - constructor.
  - destruct (Qlt_bool (mag_key x) (mag_key y)) eqn:E.
    + constructor; [ constructor | ].
      apply Qlt_bool_iff in E. apply Qlt_le_weak, E.
    + constructor; [ constructor | ]. apply Qlt_bool_false_iff, E.
  - destruct (Qlt_bool (mag_key x) (mag_key y)) eqn:E.
    + simpl in IH. destruct (Qlt_bool (mag_key x) (mag_key z)) eqn:E'.
      * constructor; assumption.
      * constructor; [ exact IH | ].
        apply Qlt_bool_iff in E. apply Qlt_le_weak, E.
    + constructor; [ constructor; assumption | ].
      apply Qlt_bool_false_iff, E.
Qed.

(** ... and puts greater magnitudes first. *)
Lemma sort_by_mag_desc_sorted (l : list nearby) :
  LocallySorted mag_ge (sort_by_mag_desc l).
Proof.
  induction l as [ | x l IH ]; simpl.
  - constructor.
  - apply insert_desc_sorted, IH.
Qed.

Lemma hd_sort_in (l : list nearby) (y : nearby) :
  hd_error (sort_by_mag_desc l) = Some y -> In y l.
Proof.
  intros H. apply (Permutation_in y (Permutation_sym
                     (sort_by_mag_desc_perm l))).
  destruct (sort_by_mag_desc l); simpl in H; [ discriminate | ].
  injection H as ->; left; reflexivity.
Qed.

(** An element with nothing as strong before it and nothing stronger after
    it comes out first. *)
Lemma first_maximum_is_head (l1 l2 : list nearby) (s : nearby) :
  Forall (fun e => (mag_key e < mag_key s)%Q) l1 ->
  Forall (fun e => (mag_key e <= mag_key s)%Q) l2 ->
  hd_error (sort_by_mag_desc (l1 ++ s :: l2)) = Some s.
Proof.
  intros H1 H2. induction H1 as [ | x l1 Hx _ IH ]; simpl.
  - rewrite hd_insert_desc.
    destruct (hd_error (sort_by_mag_desc l2)) as [y | ] eqn:Hy; [ | reflexivity ].
    apply hd_sort_in in Hy. rewrite Forall_forall in H2.
    apply H2, Qlt_bool_false_iff in Hy. rewrite Hy; reflexivity.
  - rewrite hd_insert_desc, IH.
    apply Qlt_bool_iff in Hx. rewrite Hx; reflexivity.
Qed.

(** Every non-empty list has such an element: its first maximum. *)
Lemma first_maximum_exists (l : list nearby) :
  l <> [] ->
  exists l1 s l2,
    l = l1 ++ s :: l2 /\
    Forall (fun e => (mag_key e < mag_key s)%Q) l1 /\
    Forall (fun e => (mag_key e <= mag_key s)%Q) l2.
Proof.
  induction l as [ | x l IH ]; intros Hne; [ congruence | ].
  destruct l as [ | y l' ].
  - exists [], x, []. repeat split; constructor.
  - destruct IH as (l1 & s & l2 & Heq & H1 & H2); [ discriminate | ].
    destruct (Qlt_le_dec (mag_key x) (mag_key s)) as [Hlt | Hle].
    + exists (x :: l1), s, l2. rewrite Heq. repeat split.
      * constructor; assumption.
      * exact H2.
    + exists [], x, (y :: l'). repeat split; [ constructor | ].
      rewrite Heq. apply Forall_app; split; [ | constructor ].
      * eapply Forall_impl; [ | exact H1 ]. intros e He; simpl in He.
        apply Qlt_le_weak. eapply Qlt_le_trans; eassumption.
      * exact Hle.
      * eapply Forall_impl; [ | exact H2 ]. intros e He; simpl in He.
        eapply Qle_trans; eassumption.
Qed.



(** Of two nearby events of magnitude 5.1 the one listed first is selected. *)
Example strongest_of_feed :
  option_map (fun s => quake_id (nq_quake s))
    (hd_error (sort_by_mag_desc (filter_nearby grid_distance CONFIG feed [])))
  = Some "us7000b"%string.
Proof. reflexivity. Qed.

(** ** The poll cycle *)

Section PollingProperties.

Variable calculate_distance : Q -> Q -> Q -> Q -> Q.
Variable strftime : Z -> string.

Lemma filter_nearby_acc (cfg : Config) (features : list quake)
  (acc : list nearby) :
  filter_nearby calculate_distance cfg features acc =
    acc ++ map (evaluated calculate_distance cfg)
             (filter (within calculate_distance cfg) features).
Proof.
  revert acc. induction features as [ | quake rest IH ]; intros acc; simpl.
  - rewrite app_nil_r; reflexivity.
  - unfold within at 1.
    destruct (Qle_bool (distance_of calculate_distance cfg quake)
                (MAX_DISTANCE cfg)); simpl.
    + rewrite IH, <- app_assoc; reflexivity.
    + apply IH.
Qed.

Lemma filter_nearby_filter (cfg : Config) (features : list quake) :
  filter_nearby calculate_distance cfg features [] =
    map (evaluated calculate_distance cfg)
      (filter (within calculate_distance cfg) features).
Proof. apply filter_nearby_acc. Qed.

(** The events behind the retained entries are the events that pass the
    distance test, in feed order. *)
Lemma filter_nearby_quakes (cfg : Config) (features : list quake) :
  map nq_quake (filter_nearby calculate_distance cfg features []) =
    filter (within calculate_distance cfg) features.
Proof.
  rewrite filter_nearby_filter, map_map. apply map_id.
Qed.

Lemma in_filter_nearby (cfg : Config) (features : list quake) (quake : quake) :
  In quake (map nq_quake (filter_nearby calculate_distance cfg features [])) <->
  In quake features /\
  (distance_of calculate_distance cfg quake <= MAX_DISTANCE cfg)%Q.
Proof.
  rewrite filter_nearby_quakes, filter_In. unfold within.
  rewrite Qle_bool_iff. reflexivity.
Qed.

(** What a cycle does once the strongest nearby event is known. *)
Lemma check_earthquakes_strongest (cfg : Config) (env : Env)
  (features : list quake) (strongest : nearby) (rest : list nearby)
  (st : State) :
  sort_by_mag_desc (filter_nearby calculate_distance cfg features [])
    = strongest :: rest ->
  check_earthquakes calculate_distance strftime cfg env (Json features) st =
    if same_id (quake_id (nq_quake strongest)) (last_earthquake_id st) then st
    else if Qle_bool (EVACUATION_MAGNITUDE cfg) (prop_mag (nq_quake strongest))
         then play_alarm cfg env (reported strftime env strongest st)
         else emit (Console MSG_no_evacuation)
                (reported strftime env strongest st).
Proof.
  intros Hsort. unfold check_earthquakes.
  destruct features as [ | q features ]; [ discriminate Hsort | ].
  destruct (filter_nearby calculate_distance cfg (q :: features) [])
    as [ | n l ] eqn:Hnear; [ discriminate Hsort | ].
  rewrite Hsort. reflexivity.
Qed.

(** A cycle that finds no nearby event only prints. *)
Lemma check_earthquakes_none_nearby (cfg : Config) (env : Env)
  (features : list quake) (st : State) :
  filter_nearby calculate_distance cfg features [] = [] ->
  check_earthquakes calculate_distance strftime cfg env (Json features) st =
    emit (Console (match features with
                   | [] => MSG_no_recent
                   | _ => MSG_no_nearby
                   end)) st.
Proof.
  intros Hnone. unfold check_earthquakes.
  destruct features as [ | q features ]; [ reflexivity | ].
  rewrite Hnone. reflexivity.
Qed.

(** C5.  The loop over the feed keeps, in feed order, exactly the events
    whose distance from the configured location is at most [MAX_DISTANCE],
    each with its distance: an event at [MAX_DISTANCE - 1] is kept, one at
    [MAX_DISTANCE + 1] is not.  When none is kept the cycle prints one line
    and leaves the alarm, the stored identifier and the last-quake file as
    they were. *)
Theorem filter_nearby_keeps_within_radius (cfg : Config) (env : Env)
  (features : list quake) (st : State) :
  let nearby_quakes := filter_nearby calculate_distance cfg features [] in
  nearby_quakes =
    map (evaluated calculate_distance cfg)
      (filter (within calculate_distance cfg) features) /\
  (forall quake,
     In quake (map nq_quake nearby_quakes) <->
     In quake features /\
     (distance_of calculate_distance cfg quake <= MAX_DISTANCE cfg)%Q) /\
  (forall quake,
     In quake features ->
     (distance_of calculate_distance cfg quake == MAX_DISTANCE cfg - 1)%Q ->
     In quake (map nq_quake nearby_quakes)) /\
  (forall quake,
     (distance_of calculate_distance cfg quake == MAX_DISTANCE cfg + 1)%Q ->
     ~ In quake (map nq_quake nearby_quakes)) /\
  (nearby_quakes = [] ->
     let st' :=
       check_earthquakes calculate_distance strftime cfg env (Json features) st in
     (exists m, st' = emit (Console m) st) /\
     is_alarm_active st' = is_alarm_active st /\
     alarm_process st' = alarm_process st /\
     last_earthquake_id st' = last_earthquake_id st /\
     popen_count (effects st') = popen_count (effects st) /\
     last_quake_file (effects st') = last_quake_file (effects st)).
Proof.
  intros nearby_quakes.
  split; [ apply filter_nearby_filter | ].
  split; [ intros quake; apply in_filter_nearby | ].
  split.
  { intros quake Hin Hd. apply in_filter_nearby. split; [ exact Hin | ].
    rewrite Hd. rewrite <- (Qplus_0_r (MAX_DISTANCE cfg)) at 2.
    apply Qplus_le_r. discriminate. }
  split.
  { intros quake Hd Hin. apply in_filter_nearby in Hin as [_ Hle].
    rewrite Hd in Hle. rewrite <- (Qplus_0_r (MAX_DISTANCE cfg)) in Hle at 2.
    apply Qplus_le_r in Hle. apply Hle; reflexivity. }
  intros Hnone st'. subst st'.
  rewrite (check_earthquakes_none_nearby cfg env features st Hnone).
  split; [ eexists; reflexivity | ].
  repeat split.
Qed.

Lemma last_quake_file_no_save (new es : list effect) :
  forallb (fun e => negb (is_save e)) new = true ->
  last_quake_file (new ++ es) = last_quake_file es.
Proof.
  induction new as [ | e new IH ]; simpl; [ reflexivity | ].
  intros H. apply andb_prop in H as [He Hnew].
  destruct e; simpl in *; try discriminate He; auto.
Qed.

Lemma harmless_no_save (new : list effect) :
  forallb harmless new = true ->
  forallb (fun e => negb (is_save e)) new = true.
Proof.
  induction new as [ | e new IH ]; simpl; [ reflexivity | ].
  intros H. apply andb_prop in H as [He Hnew]. rewrite IH by exact Hnew.
  destruct e; simpl in *; try discriminate He; reflexivity.
Qed.

(** The record is written first; what follows in [reported] is the log
    entry and the report on the console. *)
Lemma reported_effects (env : Env) (strongest : nearby) (st : State) :
  let st' := reported strftime env strongest st in
  (exists later,
     effects st' =
       later ++ SaveLastQuake (quake_data_of strftime strongest) (save_ok env)
                  :: effects st /\
     forallb (fun e => negb (is_save e)) later = true) /\
  popen_count (effects st') = popen_count (effects st) /\
  timer_count (effects st') = timer_count (effects st) /\
  is_alarm_active st' = is_alarm_active st /\
  alarm_process st' = alarm_process st /\
  last_earthquake_id st' = Some (quake_id (nq_quake strongest)).
Proof.
  intros st'. split.
  - exists (Console (MSG_quake_info (quake_data_of strftime strongest))
            :: (if log_ok env then [] else [LoggerError MSG_log_error])
            ++ [AppendLog (quake_data_of strftime strongest) (log_ok env)]
            ++ (if save_ok env then [] else [LoggerError MSG_save_error])).
    unfold st', reported, save_last_quake, log_earthquake.
    destruct (save_ok env), (log_ok env); split; reflexivity.
  - unfold st', reported, save_last_quake, log_earthquake.
    destruct (save_ok env), (log_ok env); repeat split.
Qed.

(** C3.  A cycle whose strongest nearby event carries the identifier that
    is stored already returns the state it was given: the alarm is not
    triggered, the record is not written again, nothing is logged or
    printed. *)
Theorem same_strongest_changes_nothing (cfg : Config) (env : Env)
  (features : list quake) (strongest : nearby) (rest : list nearby)
  (st : State) :
  sort_by_mag_desc (filter_nearby calculate_distance cfg features [])
    = strongest :: rest ->
  last_earthquake_id st = Some (quake_id (nq_quake strongest)) ->
  check_earthquakes calculate_distance strftime cfg env (Json features) st = st.
Proof.
  intros Hsort Hlast.
  rewrite (check_earthquakes_strongest cfg env features strongest rest st Hsort).
  unfold same_id. rewrite Hlast, String.eqb_refl. reflexivity.
Qed.



Lemma same_id_true (i : string) (last : option string) :
  same_id i last = true -> last = Some i.
Proof.
  destruct last as [j | ]; simpl; [ | discriminate ].
  intros H. apply String.eqb_eq in H. congruence.
Qed.

(** After a cycle that found a strongest nearby event, its identifier is the
    stored one. *)
Lemma check_earthquakes_stores_id (cfg : Config) (env : Env)
  (features : list quake) (strongest : nearby) (rest : list nearby)
  (st : State) :
  sort_by_mag_desc (filter_nearby calculate_distance cfg features [])
    = strongest :: rest ->
  last_earthquake_id
    (check_earthquakes calculate_distance strftime cfg env (Json features) st)
  = Some (quake_id (nq_quake strongest)).
Proof.
  intros Hsort.
  rewrite (check_earthquakes_strongest cfg env features strongest rest st Hsort).
  destruct (reported_effects env strongest st) as (_ & _ & _ & _ & _ & Hid).
  destruct (same_id _ _) eqn:Hsame; [ apply same_id_true, Hsame | ].
  destruct (Qle_bool _ _);
    [ rewrite play_alarm_last_earthquake_id | ]; exact Hid.
Qed.


(** While the flag is set, a poll cycle neither clears it nor arms a timer. *)
Lemma check_earthquakes_while_active (cfg : Config) (env : Env)
  (resp : response) (st : State) :
  is_alarm_active st = true ->
  let st' := check_earthquakes calculate_distance strftime cfg env resp st in
  is_alarm_active st' = true /\
  timer_count (effects st') = timer_count (effects st).
Proof.
  intros Hact st'. subst st'.
  destruct resp as [ | | features ]; try (split; [ exact Hact | reflexivity ]).
  destruct (filter_nearby calculate_distance cfg features []) as [ | n l ] eqn:Hnear.
  - rewrite check_earthquakes_none_nearby by exact Hnear.
    split; [ exact Hact | reflexivity ].
  - destruct (sort_by_mag_desc (n :: l)) as [ | strongest rest ] eqn:Hsort.
    + exfalso. pose proof (sort_by_mag_desc_perm (n :: l)) as Hperm.
      rewrite Hsort in Hperm.
      apply Permutation_sym, Permutation_nil in Hperm. discriminate.
    + rewrite <- Hnear in Hsort.
      rewrite (check_earthquakes_strongest cfg env features strongest rest st Hsort).
      destruct (same_id _ _); [ split; [ exact Hact | reflexivity ] | ].
      destruct (reported_effects env strongest st)
        as (_ & _ & Htimer & Hact' & _).
      destruct (Qle_bool _ _).
      * rewrite play_alarm_when_active by congruence.
        split; [ congruence | exact Htimer ].
      * split; [ cbn [emit is_alarm_active]; congruence | exact Htimer ].
Qed.

Lemma poll_loop_while_active (cfg : Config) (cycles : list (Env * response))
  (st : State) :
  is_alarm_active st = true ->
  is_alarm_active (poll_loop calculate_distance strftime cfg cycles st) = true /\
  timer_count (effects (poll_loop calculate_distance strftime cfg cycles st))
    = timer_count (effects st).
Proof.
  revert st. induction cycles as [ | [env resp] rest IH ]; intros st Hact; simpl.
  - split; [ exact Hact | reflexivity ].
  - destruct (shutdown_requested st); [ split; [ exact Hact | reflexivity ] | ].
    destruct (check_earthquakes_while_active cfg env resp st Hact) as [Hact' Ht].
    destruct (IH _ Hact') as [Hfinal Ht'].
    split; [ exact Hfinal | congruence ].
Qed.

End PollingProperties.

(** ** The theorems of the poll cycle on the sample feed *)

Lemma filter_nearby_keeps_within_radius_witness :
  filter_nearby grid_distance CONFIG edge_feed []
    = [evaluated grid_distance CONFIG quake_near_edge] /\
  In quake_near_edge
     (map nq_quake (filter_nearby grid_distance CONFIG edge_feed [])) /\
  ~ In quake_past_edge
       (map nq_quake (filter_nearby grid_distance CONFIG edge_feed [])) /\
  check_earthquakes grid_distance show_time CONFIG env_posix (Json [quake_far])
    initial_state = emit (Console MSG_no_nearby) initial_state /\
  last_earthquake_id
    (check_earthquakes grid_distance show_time CONFIG env_posix (Json [quake_far])
       initial_state) = None.
Proof.
  destruct (filter_nearby_keeps_within_radius grid_distance show_time CONFIG
              env_posix edge_feed initial_state) as (Hfilter & _ & Hin & Hout & _).
  destruct (filter_nearby_keeps_within_radius grid_distance show_time CONFIG
              env_posix [quake_far] initial_state) as (_ & _ & _ & _ & Hnone).
  split; [ rewrite Hfilter; reflexivity | ].
  split; [ apply Hin; [ left; reflexivity | vm_compute; reflexivity ] | ].
  split; [ apply Hout; vm_compute; reflexivity | ].
  destruct (Hnone eq_refl) as ([m Hm] & _ & _ & Hid & _).
  split; [ reflexivity | rewrite Hid; reflexivity ].
Defined.

Lemma same_strongest_changes_nothing_witness :
  last_earthquake_id after_first_cycle = Some "us7000b"%string /\
  check_earthquakes grid_distance show_time CONFIG env_posix (Json feed)
    after_first_cycle = after_first_cycle.
Proof.
  split; [ reflexivity | ].
  apply (same_strongest_changes_nothing grid_distance show_time CONFIG env_posix
           feed (evaluated grid_distance CONFIG quake_b)
           [evaluated grid_distance CONFIG quake_c;
            evaluated grid_distance CONFIG quake_a]);
    reflexivity.
Defined.


(** C7.  The code at the failing input.  A trigger with the sound file
    missing sets the flag and returns before the timer is created: the alarm
    is active with no deadline, and no number of poll cycles clears the flag
    or arms one.  It stays active until a key or a signal stops it. *)
Theorem missing_sound_arms_no_timer :
  let st := play_alarm CONFIG env_no_sound initial_state in
  is_alarm_active st = true /\
  timer_count (effects st) = 0 /\
  forall cycles : list (Env * response),
    let st' := poll_loop grid_distance show_time CONFIG cycles st in
    is_alarm_active st' = true /\ timer_count (effects st') = 0.
Proof.
  intros st. split; [ reflexivity | ]. split; [ reflexivity | ].
  intros cycles st'. unfold st'.
  destruct (poll_loop_while_active grid_distance show_time CONFIG cycles st eq_refl)
    as [Hact Htimer].
  split; [ exact Hact | rewrite Htimer; reflexivity ].
Qed.


(** ** Shutdown and the scenarios of the specification *)

Lemma stop_alarm_shutdown_requested (env : Env) (st : State) :
  shutdown_requested (stop_alarm env st) = shutdown_requested st.
Proof.
  unfold stop_alarm. destruct (is_alarm_active st); simpl; [ | reflexivity ].
  destruct (alarm_process st); simpl; [ destruct (terminate_ok env) | ];
    reflexivity.
Qed.

(** A termination signal requests the shutdown and leaves the alarm
    idle. *)
Lemma signal_handler_requests_shutdown (env : Env) (st : State) :
  shutdown_requested (signal_handler env st) = true /\
  is_alarm_active (signal_handler env st) = false.
Proof.
  unfold signal_handler. split.
  - rewrite stop_alarm_shutdown_requested. reflexivity.
  - apply stop_alarm_idle.
Qed.

(** Once the shutdown is requested the keyboard loop reads nothing more. *)
Lemma keyboard_loop_after_shutdown (fuel : nat) (env : Env) (st : State)
  (stdin : list ascii) :
  shutdown_requested st = true ->
  keyboard_loop fuel env st stdin = (st, stdin).
Proof. intros H. destruct fuel; simpl; [ | rewrite H ]; reflexivity. Qed.

(** One event 50 km away, magnitude 5.1, threshold 4.5: the alarm ends
    active with one process, the identifier is stored, the record is on
    file and the log has one new entry. *)
Example end_to_end_alert :
  let st :=
    check_earthquakes grid_distance show_time CONFIG env_posix (Json [quake_b])
      initial_state in
  is_alarm_active st = true /\
  popen_count (effects st) = 1 /\
  timer_count (effects st) = 1 /\
  last_earthquake_id st = Some "us7000b"%string /\
  option_map qd_id (last_quake_file (effects st)) = Some "us7000b"%string /\
  List.length (log_entries (effects st)) = 1.
Proof. vm_compute. repeat split. Qed.

(** One event farther than [MAX_DISTANCE]: no alarm, nothing stored, one
    line on the console. *)
Example end_to_end_far_away :
  check_earthquakes grid_distance show_time CONFIG env_posix (Json [quake_far])
    initial_state
  = emit (Console MSG_no_nearby) initial_state.
Proof. reflexivity. Qed.

(** A restart after the cycle over the sample feed: the identifier read
    back from the file keeps the same event from being reported again. *)
Example restart_does_not_report_again :
  let file := Stored (option_map qd_id (last_quake_file (effects after_first_cycle))) in
  let st := load_last_quake file initial_state in
  check_earthquakes grid_distance show_time CONFIG env_posix (Json feed) st = st.
Proof. reflexivity. Qed.

(** * More of the code *)

(** ** Which player is started *)

(** The players are tried in list order.  The first one whose [Popen]
    does not raise [FileNotFoundError] decides: if it starts it is the alarm
    process, if it raises anything else the loop is left by that exception;
    the players listed after it are not tried. *)
Lemma try_players_first_answer (env : Env) (pre post : list (list string))
  (cmd : list string) (st : State) :
  (forall c, In c pre -> popen env c = FileNotFound) ->
  popen env cmd <> FileNotFound ->
  try_players env (pre ++ cmd :: post) st =
    match popen env cmd with
    | Started => Normal (spawn cmd st)
    | _ => Raised st
    end.
Proof.
  intros Hpre Hcmd. induction pre as [ | c pre IH ]; simpl.
  - destruct (popen env cmd); congruence.
  - rewrite (Hpre c) by (left; reflexivity).
    apply IH. intros c' Hc'. apply Hpre. right; exact Hc'.
Qed.

Lemma try_players_first_answer_witness :
  try_players env_mplayer (players CONFIG) initial_state =
    Normal (spawn ["mplayer"; "-loop"; "0"; "alarm.mp3"]%string initial_state).
Proof.
  apply (try_players_first_answer env_mplayer
           [["mpg123"; "-q"; "--loop"; "-1"; "alarm.mp3"]%string]
           [["afplay"; "alarm.mp3"]%string]
           ["mplayer"; "-loop"; "0"; "alarm.mp3"]%string initial_state).
  - intros c [<- | []]. reflexivity.
  - simpl. discriminate.
Defined.

(** X2.  On Linux/Mac, with the alarm idle, the sound file present and the
    timer starting: the first player of the list that is installed is the
    one started, whatever is installed after it; it becomes the handle, the
    alarm is active and the timer is armed with [MAX_ALARM_DURATION]. *)
Theorem play_alarm_uses_first_player (cfg : Config) (env : Env)
  (pre post : list (list string)) (cmd : list string) (st : State) :
  is_alarm_active st = false ->
  os env = posix ->
  path_exists env (ALARM_SOUND cfg) = true ->
  timer_start_ok env = true ->
  players cfg = pre ++ cmd :: post ->
  (forall c, In c pre -> popen env c = FileNotFound) ->
  popen env cmd = Started ->
  let st' := play_alarm cfg env st in
  st' = emit (TimerStart (MAX_ALARM_DURATION cfg)) (spawn cmd (announced st)) /\
  is_alarm_active st' = true /\
  alarm_process st' = Some (popen_count (effects st)) /\
  hd_error (tl (effects st')) = Some (Popen (popen_count (effects st)) cmd).
Proof.
  intros Hact Hos Hexists Htimer Hplayers Hpre Hcmd st'.
  assert (Hst' : st' = emit (TimerStart (MAX_ALARM_DURATION cfg))
                         (spawn cmd (announced st))).
  { unfold st'. rewrite play_alarm_unfold by exact Hact.
    rewrite Hexists; simpl. unfold start_player. rewrite Hos, Hplayers.
    rewrite try_players_first_answer by (assumption || congruence).
    rewrite Hcmd, Htimer. reflexivity. }
  rewrite Hst'. repeat split.
Qed.

Lemma play_alarm_uses_first_player_witness :
  let st' := play_alarm CONFIG env_mplayer initial_state in
  is_alarm_active st' = true /\
  alarm_process st' = Some 0 /\
  hd_error (tl (effects st'))
    = Some (Popen 0 ["mplayer"; "-loop"; "0"; "alarm.mp3"]%string).
Proof.
  destruct (play_alarm_uses_first_player CONFIG env_mplayer
              [["mpg123"; "-q"; "--loop"; "-1"; "alarm.mp3"]%string]
              [["afplay"; "alarm.mp3"]%string]
              ["mplayer"; "-loop"; "0"; "alarm.mp3"]%string initial_state)
    as (_ & Hact & Hproc & Hcmd); try reflexivity.
  - intros c [<- | []]. reflexivity.
  - split; [ exact Hact | ]. split; [ exact Hproc | exact Hcmd ].
Defined.

(** X3.  On Linux/Mac, when the players before some player are missing and
    that player raises anything but [FileNotFoundError], [play_alarm] logs
    the error and resets the flag: no process, no timer, and the players
    after it are not used even if they are installed. *)
Theorem play_alarm_player_error (cfg : Config) (env : Env)
  (pre post : list (list string)) (cmd : list string) (st : State) :
  is_alarm_active st = false ->
  os env = posix ->
  path_exists env (ALARM_SOUND cfg) = true ->
  players cfg = pre ++ cmd :: post ->
  (forall c, In c pre -> popen env c = FileNotFound) ->
  popen env cmd = PopenError ->
  let st' := play_alarm cfg env st in
  st' = play_handler (announced st) /\
  is_alarm_active st' = false /\
  alarm_process st' = alarm_process st /\
  popen_count (effects st') = popen_count (effects st) /\
  timer_count (effects st') = timer_count (effects st).
Proof.
  intros Hact Hos Hexists Hplayers Hpre Hcmd st'.
  assert (Hst' : st' = play_handler (announced st)).
  { unfold st'. rewrite play_alarm_unfold by exact Hact.
    rewrite Hexists; simpl. unfold start_player. rewrite Hos, Hplayers.
    rewrite try_players_first_answer by (assumption || congruence).
    rewrite Hcmd. reflexivity. }
  rewrite Hst'. repeat split.
Qed.

Lemma play_alarm_player_error_witness :
  let st' := play_alarm CONFIG env_broken_mpg123 initial_state in
  st' = play_handler (announced initial_state) /\
  is_alarm_active st' = false /\
  alarm_process st' = None /\
  popen_count (effects st') = 0 /\
  timer_count (effects st') = 0.
Proof.
  apply (play_alarm_player_error CONFIG env_broken_mpg123 []
           [["mplayer"; "-loop"; "0"; "alarm.mp3"]%string;
            ["afplay"; "alarm.mp3"]%string]
           ["mpg123"; "-q"; "--loop"; "-1"; "alarm.mp3"]%string initial_state);
    try reflexivity.
  intros c [].
Defined.

(** ** What the alarm calls leave alone *)

Lemma terminations_harmless (pid : nat) (new es : list effect) :
  forallb harmless new = true ->
  terminations pid (new ++ es) = terminations pid es.
Proof.
  induction new as [ | e new IH ]; simpl; [ reflexivity | ].
  intros H. apply andb_prop in H as [He Hnew].
  destruct e; simpl in *; try discriminate He; auto.
Qed.

Lemma log_entries_harmless (new es : list effect) :
  forallb harmless new = true ->
  log_entries (new ++ es) = log_entries es.
Proof.
  induction new as [ | e new IH ]; simpl; [ reflexivity | ].
  intros H. apply andb_prop in H as [He Hnew].
  destruct e; simpl in *; try discriminate He; auto.
Qed.

Lemma popen_count_cons (e : effect) (es : list effect) :
  popen_count (e :: es) =
    if is_popen e then S (popen_count es) else popen_count es.
Proof. unfold popen_count; simpl. destruct (is_popen e); reflexivity. Qed.

Lemma timer_count_cons (e : effect) (es : list effect) :
  timer_count (e :: es) =
    if is_timer_start e then S (timer_count es) else timer_count es.
Proof. unfold timer_count; simpl. destruct (is_timer_start e); reflexivity. Qed.

(** X4.  [play_alarm] never touches the stored identifier or the shutdown
    flag, never stops a process and never writes a data file; it starts at
    most one process and arms at most one timer, and a process it starts is
    the one the handle names afterwards. *)
Theorem play_alarm_frame (cfg : Config) (env : Env) (st : State) :
  let st' := play_alarm cfg env st in
  last_earthquake_id st' = last_earthquake_id st /\
  shutdown_requested st' = shutdown_requested st /\
  (forall pid, terminations pid (effects st') = terminations pid (effects st)) /\
  last_quake_file (effects st') = last_quake_file (effects st) /\
  log_entries (effects st') = log_entries (effects st) /\
  popen_count (effects st') <= S (popen_count (effects st)) /\
  timer_count (effects st') <= S (timer_count (effects st)) /\
  (popen_count (effects st') = S (popen_count (effects st)) ->
   alarm_process st' = Some (popen_count (effects st))).
Proof.
  intros st'.
  destruct (play_alarm_extends cfg env st) as [new [Hext Hnew]].
  fold st' in Hext. unfold extends in Hext.
  split; [ apply play_alarm_last_earthquake_id | ].
  split; [ apply play_alarm_shutdown_requested | ].
  split; [ intros pid; rewrite Hext; apply terminations_harmless, Hnew | ].
  split; [ rewrite Hext; apply last_quake_file_no_save, harmless_no_save, Hnew | ].
  split; [ rewrite Hext; apply log_entries_harmless, Hnew | ].
  clear new Hext Hnew. unfold st'.
  destruct (is_alarm_active st) eqn:Hact.
  { rewrite play_alarm_when_active by exact Hact.
    repeat split; try lia. }
  rewrite play_alarm_unfold by exact Hact.
  destruct (path_exists env (ALARM_SOUND cfg)); simpl.
  - destruct (start_player_cases cfg env (announced st))
      as [-> | [[cmd ->] | ->]];
      destruct (timer_start_ok env); unfold play_handler, spawn, announced;
      cbn [effects emit set_is_alarm_active set_alarm_process alarm_process];
      rewrite ?popen_count_cons, ?timer_count_cons; simpl;
      repeat split; intros; try lia; reflexivity.
  - cbn [effects emit announced set_is_alarm_active alarm_process].
    unfold announced; cbn [effects emit set_is_alarm_active].
    rewrite ?popen_count_cons, ?timer_count_cons; simpl.
    repeat split; intros; lia.
Qed.

(** ** Stopping the alarm *)

Lemma stop_alarm_last_earthquake_id (env : Env) (st : State) :
  last_earthquake_id (stop_alarm env st) = last_earthquake_id st.
Proof.
  unfold stop_alarm. destruct (is_alarm_active st); simpl; [ | reflexivity ].
  destruct (alarm_process st); simpl; [ destruct (terminate_ok env) | ];
    reflexivity.
Qed.

Lemma stop_alarm_counts (env : Env) (st : State) :
  popen_count (effects (stop_alarm env st)) = popen_count (effects st) /\
  timer_count (effects (stop_alarm env st)) = timer_count (effects st) /\
  last_quake_file (effects (stop_alarm env st)) = last_quake_file (effects st).
Proof.
  unfold stop_alarm. destruct (is_alarm_active st); simpl; [ | repeat split ].
  destruct (alarm_process st); simpl; [ | repeat split ].
  destruct (terminate_ok env); [ destruct (os env) | ]; repeat split.
Qed.



(** X6.  When [terminate()] raises, [stop_alarm] has already cleared the
    flag: the error is logged, the handle and the process stay, and every
    later [stop_alarm] returns at its first test, so the process is never
    stopped.  A later trigger that starts a player then leaves two sinks
    live. *)
Theorem stop_alarm_failed_terminate (cfg : Config) (env : Env) (st : State)
  (pid : nat) :
  is_alarm_active st = true ->
  alarm_process st = Some pid ->
  terminate_ok env = false ->
  let st' := stop_alarm env st in
  st' = emit (LoggerError MSG_stop_error) (set_is_alarm_active false st) /\
  alarm_process st' = Some pid /\
  live_sinks (effects st') = live_sinks (effects st) /\
  (forall env', stop_alarm env' st' = st') /\
  (forall env' cmd,
     path_exists env' (ALARM_SOUND cfg) = true ->
     timer_start_ok env' = true ->
     start_player cfg env' (announced st') = Normal (spawn cmd (announced st')) ->
     live_sinks (effects (play_alarm cfg env' st'))
       = popen_count (effects st) :: live_sinks (effects st)).
Proof.
  intros Hact Hproc Hterm st'.
  assert (Hst' : st' = emit (LoggerError MSG_stop_error)
                         (set_is_alarm_active false st)).
  { unfold st', stop_alarm. rewrite Hact; simpl. rewrite Hproc, Hterm.
    reflexivity. }
  rewrite Hst'.
  split; [ reflexivity | ].
  split; [ exact Hproc | ].
  split; [ reflexivity | ].
  split; [ intros env'; apply stop_alarm_when_idle; reflexivity | ].
  intros env' cmd Hexists Htimer Hstart.
  rewrite play_alarm_unfold by reflexivity.
  rewrite Hexists; simpl. rewrite Hstart, Htimer. reflexivity.
Qed.

Lemma stop_alarm_failed_terminate_witness :
  let st' := stop_alarm env_terminate_fails sounding in
  alarm_process st' = Some 0 /\
  live_sinks (effects st') = [0] /\
  stop_alarm env_posix st' = st' /\
  live_sinks (effects (play_alarm CONFIG env_posix st')) = [1; 0].
Proof.
  intros st'. subst st'.
  destruct (stop_alarm_failed_terminate CONFIG env_terminate_fails sounding 0
              eq_refl eq_refl eq_refl) as (_ & Hproc & Hlive & Hstop & Hplay).
  split; [ exact Hproc | ].
  split; [ rewrite Hlive; reflexivity | ].
  split; [ apply Hstop | ].
  rewrite (Hplay env_posix ["mpg123"; "-q"; "--loop"; "-1"; "alarm.mp3"]%string);
    reflexivity.
Defined.

(** ** More on the poll cycle *)

Lemma hd_sort_max (l : list nearby) (s : nearby) :
  hd_error (sort_by_mag_desc l) = Some s ->
  forall e, In e l -> (mag_key e <= mag_key s)%Q.
Proof.
  intros Hhd e He.
  assert (Hne : l <> []) by (intros ->; destruct He).
  destruct (first_maximum_exists l Hne) as (l1 & s' & l2 & Heq & H1 & H2).
  assert (Hs : s' = s).
  { pose proof (first_maximum_is_head l1 l2 s' H1 H2) as Hhd'.
    rewrite <- Heq in Hhd'. congruence. }
  subst s'. rewrite Heq in He.
  apply in_app_or in He as [He | [<- | He]].
  - rewrite Forall_forall in H1. apply Qlt_le_weak, H1, He.
  - apply Qle_refl.
  - rewrite Forall_forall in H2. apply H2, He.
Qed.

Lemma sort_by_mag_desc_nil (l : list nearby) :
  sort_by_mag_desc l = [] -> l = [].
Proof.
  intros H. pose proof (sort_by_mag_desc_perm l) as Hperm.
  rewrite H in Hperm. apply Permutation_sym, Permutation_nil in Hperm.
  exact Hperm.
Qed.

Lemma no_save_not_in (later : list effect) (d : quake_data) (written : bool) :
  forallb (fun e => negb (is_save e)) later = true ->
  ~ In (SaveLastQuake d written) later.
Proof.
  intros H Hin. rewrite forallb_forall in H. apply H in Hin. discriminate Hin.
Qed.


Section PollingMore.

Variable calculate_distance : Q -> Q -> Q -> Q -> Q.
Variable strftime : Z -> string.

(** The effects of a cycle that reports a new event: the write of the
    record, then effects that write no record. *)
Lemma check_earthquakes_new_effects (cfg : Config) (env : Env)
  (features : list quake) (strongest : nearby) (rest : list nearby)
  (st : State) :
  sort_by_mag_desc (filter_nearby calculate_distance cfg features [])
    = strongest :: rest ->
  same_id (quake_id (nq_quake strongest)) (last_earthquake_id st) = false ->
  exists later,
    effects (check_earthquakes calculate_distance strftime cfg env
               (Json features) st)
    = later ++ SaveLastQuake (quake_data_of strftime strongest) (save_ok env)
               :: effects st /\
    forallb (fun e => negb (is_save e)) later = true.
Proof.
  intros Hsort Hnew.
  rewrite (check_earthquakes_strongest calculate_distance strftime cfg env
             features strongest rest st Hsort), Hnew.
  destruct (reported_effects strftime env strongest st)
    as ([later0 [Heff Hlater0]] & _).
  destruct (Qle_bool _ _).
  - destruct (play_alarm_extends cfg env (reported strftime env strongest st))
      as [new [Hext Hnewh]].
    exists (new ++ later0). unfold extends in Hext.
    rewrite Hext, Heff, app_assoc. split; [ reflexivity | ].
    rewrite forallb_app, harmless_no_save, Hlater0 by exact Hnewh. reflexivity.
  - exists (Console MSG_no_evacuation :: later0). cbn [effects emit app].
    rewrite Heff. split; [ reflexivity | exact Hlater0 ].
Qed.

(** The strongest nearby event is an event of the feed, within the radius,
    with its computed distance, and no event within the radius is stronger. *)
Lemma strongest_is_nearby_maximum (cfg : Config) (features : list quake)
  (strongest : nearby) (rest : list nearby) :
  sort_by_mag_desc (filter_nearby calculate_distance cfg features [])
    = strongest :: rest ->
  strongest = evaluated calculate_distance cfg (nq_quake strongest) /\
  In (nq_quake strongest) features /\
  (distance_of calculate_distance cfg (nq_quake strongest) <= MAX_DISTANCE cfg)%Q /\
  (forall q, In q features ->
     (distance_of calculate_distance cfg q <= MAX_DISTANCE cfg)%Q ->
     (prop_mag q <= prop_mag (nq_quake strongest))%Q).
Proof.
  intros Hsort.
  assert (Hhd : hd_error (sort_by_mag_desc
                  (filter_nearby calculate_distance cfg features []))
                = Some strongest) by (rewrite Hsort; reflexivity).
  pose proof (hd_sort_in _ _ Hhd) as Hin.
  rewrite filter_nearby_filter in Hin. apply in_map_iff in Hin
    as (q & Hq & Hqin). apply filter_In in Hqin as [Hqin Hqw].
  subst strongest. simpl.
  split; [ reflexivity | ].
  split; [ exact Hqin | ].
  split; [ apply Qle_bool_iff, Hqw | ].
  intros q' Hq'in Hq'near.
  apply (hd_sort_max _ _ Hhd (evaluated calculate_distance cfg q')).
  rewrite filter_nearby_filter. apply in_map, filter_In.
  split; [ exact Hq'in | apply Qle_bool_iff, Hq'near ].
Qed.

(** X7.  Whatever record a cycle writes to the last-quake file describes an
    event of the fetched feed that lies within [MAX_DISTANCE] and that no
    event of the feed within [MAX_DISTANCE] exceeds in magnitude; its
    distance field is the distance computed for that event. *)
Theorem written_record_is_strongest_nearby (cfg : Config) (env : Env)
  (features : list quake) (st : State) (d : quake_data) (written : bool) :
  In (SaveLastQuake d written)
     (effects (check_earthquakes calculate_distance strftime cfg env
                 (Json features) st)) ->
  In (SaveLastQuake d written) (effects st) \/
  exists quake,
    In quake features /\
    (distance_of calculate_distance cfg quake <= MAX_DISTANCE cfg)%Q /\
    (forall q, In q features ->
       (distance_of calculate_distance cfg q <= MAX_DISTANCE cfg)%Q ->
       (prop_mag q <= prop_mag quake)%Q) /\
    d = quake_data_of strftime (evaluated calculate_distance cfg quake) /\
    qd_distance d = distance_of calculate_distance cfg quake /\
    written = save_ok env.
Proof.
  intros Hin.
  destruct (filter_nearby calculate_distance cfg features []) as [ | n l ] eqn:Hnear.
  { rewrite check_earthquakes_none_nearby in Hin by exact Hnear.
    destruct Hin as [Hin | Hin]; [ discriminate Hin | left; exact Hin ]. }
  destruct (sort_by_mag_desc (n :: l)) as [ | strongest rest ] eqn:Hsort.
  { apply sort_by_mag_desc_nil in Hsort. discriminate Hsort. }
  rewrite <- Hnear in Hsort.
  destruct (same_id (quake_id (nq_quake strongest)) (last_earthquake_id st))
    eqn:Hsame.
  { rewrite (check_earthquakes_strongest calculate_distance strftime cfg env
               features strongest rest st Hsort), Hsame in Hin.
    left; exact Hin. }
  destruct (check_earthquakes_new_effects cfg env features strongest rest st
              Hsort Hsame) as [later [Heff Hlater]].
  rewrite Heff in Hin. apply in_app_or in Hin as [Hin | [Hin | Hin]].
  - elim (no_save_not_in later d written Hlater Hin).
  - right. injection Hin as <- <-.
    destruct (strongest_is_nearby_maximum cfg features strongest rest Hsort)
      as (Heval & Hfeed & Hnearby & Hmax).
    exists (nq_quake strongest).
    split; [ exact Hfeed | ].
    split; [ exact Hnearby | ].
    split; [ exact Hmax | ].
    rewrite <- Heval. split; [ reflexivity | ].
    split; [ rewrite Heval at 1; reflexivity | reflexivity ].
  - left; exact Hin.
Qed.




(** X11.  A cycle that finds nothing to report (the fetch failed, the feed
    is empty, or no event lies within [MAX_DISTANCE]) leaves every global as
    it was and adds one or two lines to the logger and the console: no
    process, no timer, no write, so the next cycle starts from the same
    state. *)
Theorem nothing_nearby_only_reports (cfg : Config) (env : Env)
  (resp : response) (st : State) :
  match resp with
  | Json features => filter_nearby calculate_distance cfg features [] = []
  | _ => True
  end ->
  let st' := check_earthquakes calculate_distance strftime cfg env resp st in
  is_alarm_active st' = is_alarm_active st /\
  alarm_process st' = alarm_process st /\
  last_earthquake_id st' = last_earthquake_id st /\
  shutdown_requested st' = shutdown_requested st /\
  exists new,
    effects st' = new ++ effects st /\
    forallb is_report new = true /\
    (1 <= List.length new <= 2)%nat.
Proof.
  intros Hnone st'. unfold st'.
  destruct resp as [ | | features ].
  - repeat split. eexists [_; _]. repeat split; simpl; lia.
  - repeat split. eexists [_; _]. repeat split; simpl; lia.
  - rewrite check_earthquakes_none_nearby by exact Hnone.
    repeat split. eexists [_]. repeat split; simpl; lia.
Qed.



End PollingMore.

(** ** More on the keyboard listener *)

Lemma quit_sets_flags (env : Env) (st : State) :
  shutdown_requested (quit env st) = true /\ is_alarm_active (quit env st) = false.
Proof.
  unfold quit; cbn [emit shutdown_requested is_alarm_active]. split.
  - rewrite stop_alarm_shutdown_requested. reflexivity.
  - apply stop_alarm_idle.
Qed.

(** On Windows a key that does not quit is consumed and leaves the
    shutdown flag alone. *)
Lemma keyboard_nt_other_key (env : Env) (st : State) (b : ascii)
  (rest : list ascii) :
  os env = nt ->
  is_quit_key_nt b = false ->
  exists st1,
    keyboard_iteration env st (b :: rest) = (st1, rest) /\
    shutdown_requested st1 = shutdown_requested st.
Proof.
  intros Hos Hb. unfold keyboard_iteration, keyboard_iteration_nt.
  rewrite Hos. unfold is_quit_key_nt in Hb.
  destruct (nat_of_ascii b <? 128); [ | eexists; split; reflexivity ].
  simpl in Hb. unfold lower_is. rewrite Hb.
  destruct (Ascii.eqb (lower b) "a" && is_alarm_active st).
  - eexists; split; [ reflexivity | apply stop_alarm_shutdown_requested ].
  - eexists; split; reflexivity.
Qed.

(** X14.  On Windows the listener reads one key per pass and stops at the
    first ['q'] or ['Q']: the keys before it are consumed, the keys after
    it are never read, the shutdown flag is set and the alarm is idle. *)
Theorem keyboard_nt_quits_at_first_q (env : Env) (pre post : list ascii)
  (k : ascii) (st : State) (fuel : nat) :
  os env = nt ->
  shutdown_requested st = false ->
  forallb (fun b => negb (is_quit_key_nt b)) pre = true ->
  is_quit_key_nt k = true ->
  List.length pre < fuel ->
  let result := keyboard_loop fuel env st (pre ++ k :: post) in
  shutdown_requested (fst result) = true /\
  is_alarm_active (fst result) = false /\
  snd result = post.
Proof.
  intros Hos Hrun Hpre Hk. revert st fuel Hrun.
  induction pre as [ | b pre IH ]; intros st fuel Hrun Hfuel result.
  - destruct fuel as [ | fuel ]; [ simpl in Hfuel; lia | ].
    assert (Hstep : keyboard_iteration env st (k :: post) = (quit env st, post)).
    { unfold is_quit_key_nt in Hk. apply andb_prop in Hk as [Hascii Hq].
      apply keyboard_nt_quits_on_q;
        [ exact Hos | apply Ascii.eqb_eq, Hq | apply Nat.ltb_lt, Hascii ]. }
    destruct (quit_sets_flags env st) as [Hshut Hidle].
    unfold result. cbn [keyboard_loop app]. rewrite Hrun, Hstep.
    rewrite keyboard_loop_after_shutdown by exact Hshut.
    repeat split; assumption.
  - destruct fuel as [ | fuel ]; [ simpl in Hfuel; lia | ].
    simpl in Hpre. apply andb_prop in Hpre as [Hb Hpre].
    apply negb_true_iff in Hb.
    destruct (keyboard_nt_other_key env st b (pre ++ k :: post) Hos Hb)
      as [st1 [Hstep Hshut]].
    unfold result. cbn [keyboard_loop app]. rewrite Hrun, Hstep.
    apply (IH Hpre st1 fuel); [ congruence | simpl in Hfuel; lia ].
Qed.

Lemma keyboard_nt_quits_at_first_q_witness :
  let result := keyboard_loop 10 env_nt sounding ["x"; "a"; "Q"; "a"; "q"]%char in
  shutdown_requested (fst result) = true /\
  is_alarm_active (fst result) = false /\
  snd result = ["a"; "q"]%char.
Proof.
  apply (keyboard_nt_quits_at_first_q env_nt ["x"; "a"]%char ["a"; "q"]%char
           "Q"%char sounding 10); try reflexivity.
  simpl. lia.
Defined.

(** X15.  On Linux/Mac, when standard input is not a terminal, every pass
    of the listener raises before it reads and the exception is swallowed:
    no key is ever consumed and nothing changes, however long the loop
    runs. *)
Theorem keyboard_without_tty (env : Env) (st : State) (keys : list ascii)
  (fuel : nat) :
  os env <> nt ->
  tty_ok env = false ->
  keyboard_loop fuel env st keys = (st, keys).
Proof.
  intros Hos Htty. induction fuel as [ | fuel IH ]; simpl; [ reflexivity | ].
  destruct (shutdown_requested st); [ reflexivity | ].
  assert (Hstep : keyboard_iteration env st keys = (st, keys)).
  { unfold keyboard_iteration, keyboard_iteration_posix. rewrite Htty.
    destruct (os env); [ congruence | reflexivity | reflexivity ]. }
  rewrite Hstep. exact IH.
Qed.

Lemma keyboard_without_tty_witness :
  keyboard_loop 5 env_no_tty sounding ["a"; "q"; "q"]%char
    = (sounding, ["a"; "q"; "q"]%char).
Proof.
  apply (keyboard_without_tty env_no_tty sounding ["a"; "q"; "q"]%char 5);
    [ simpl; discriminate | reflexivity ].
Defined.

(** ** The main loop *)

Section MainProperties.

Variable calculate_distance : Q -> Q -> Q -> Q -> Q.
Variable strftime : Z -> string.

Lemma main_loop_after_shutdown (cfg : Config) (wakes : list wake)
  (last_check : Q) (sys : System) (checks : list Q) :
  shutdown_requested (sys_state sys) = true ->
  main_loop calculate_distance strftime cfg wakes last_check sys checks
    = mkRun sys checks true.
Proof.
  intros H. destruct wakes; simpl; rewrite H; reflexivity.
Qed.

Lemma main_loop_spaced (cfg : Config) (base : Q) (wakes : list wake)
  (last_check : Q) (sys : System) (checks : list Q) :
  last_check = hd base checks ->
  spaced (inject_Z (CHECK_INTERVAL cfg)) base checks ->
  spaced (inject_Z (CHECK_INTERVAL cfg)) base
    (run_checks
       (main_loop calculate_distance strftime cfg wakes last_check sys checks)).
Proof.
  revert last_check sys checks.
  induction wakes as [ | w rest IH ]; intros last_check sys checks Hlast Hsp.
  - exact Hsp.
  - simpl. destruct (shutdown_requested (sys_state sys)); [ exact Hsp | ].
    destruct (Qle_bool (inject_Z (CHECK_INTERVAL cfg)) (wake_time w - last_check))
      eqn:Hdue.
    + apply IH; [ reflexivity | ].
      simpl. split; [ | exact Hsp ].
      rewrite <- Hlast. apply Qle_bool_iff, Hdue.
    + apply IH; assumption.
Qed.

(** X16.  However the clock runs and whatever the other threads do, two
    consecutive checks of the loop of [main] are at least [CHECK_INTERVAL]
    seconds apart by the clock readings of their passes, and the first one
    at least that long after the reading taken when the loop was entered. *)
Theorem main_checks_spaced (cfg : Config) (file : stored_file) (env : Env)
  (resp : response) (events : list async_event) (keys : list ascii)
  (now : Q) (wakes : list wake) :
  spaced (inject_Z (CHECK_INTERVAL cfg)) now
    (run_checks
       (main calculate_distance strftime cfg file env resp events keys now wakes)).
Proof.
  unfold main. apply main_loop_spaced; [ reflexivity | exact I ].
Qed.

Lemma async_step_keeps_shutdown (env : Env) (e : async_event) (sys : System) :
  shutdown_requested (sys_state sys) = true ->
  shutdown_requested (sys_state (async_step env e sys)) = true.
Proof.
  intros H. destruct e; unfold async_step; cbn [sys_state].
  - apply signal_handler_requests_shutdown.
  - destruct (_ <? _); cbn [sys_state];
      [ rewrite stop_alarm_shutdown_requested | ]; exact H.
  - rewrite H. exact H.
Qed.

Lemma async_run_keeps_shutdown (env : Env) (events : list async_event)
  (sys : System) :
  shutdown_requested (sys_state sys) = true ->
  shutdown_requested (sys_state (async_run env events sys)) = true.
Proof.
  revert sys. induction events as [ | e events IH ]; intros sys H; simpl.
  - exact H.
  - apply IH, async_step_keeps_shutdown, H.
Qed.

Lemma async_run_signal (env : Env) (events : list async_event) (sys : System) :
  In SignalArrives events ->
  shutdown_requested (sys_state (async_run env events sys)) = true.
Proof.
  revert sys. induction events as [ | e events IH ]; intros sys Hin; simpl.
  - destruct Hin.
  - destruct Hin as [-> | Hin].
    + apply async_run_keeps_shutdown. cbn [async_step sys_state].
      apply signal_handler_requests_shutdown.
    + apply IH, Hin.
Qed.

Lemma main_loop_signal (cfg : Config) (before after : list wake) (w : wake)
  (last_check : Q) (sys : System) (checks : list Q) :
  In SignalArrives (wake_events w) ->
  main_loop calculate_distance strftime cfg (before ++ w :: after)
    last_check sys checks
  = main_loop calculate_distance strftime cfg (before ++ [w])
      last_check sys checks /\
  run_exited
    (main_loop calculate_distance strftime cfg (before ++ w :: after)
       last_check sys checks) = true.
Proof.
  intros Hsig. revert last_check sys checks.
  induction before as [ | b before IH ]; intros last_check sys checks.
  - cbn [app main_loop].
    destruct (shutdown_requested (sys_state sys)); [ split; reflexivity | ].
    destruct (Qle_bool _ _);
      rewrite main_loop_after_shutdown by (apply async_run_signal, Hsig);
      rewrite (async_run_signal _ _ _ Hsig);
      split; reflexivity.
  - cbn [app main_loop].
    destruct (shutdown_requested (sys_state sys)); [ split; reflexivity | ].
    destruct (Qle_bool _ _); apply IH.
Qed.

(** X17.  Once a termination signal has arrived during the sleep of some
    pass, the loop of [main] is left at its next test: whatever passes
    would have followed, the run is the run that ends with that pass, so no
    later fetch, write or alarm happens. *)
Theorem main_stops_after_signal (cfg : Config) (file : stored_file) (env : Env)
  (resp : response) (events : list async_event) (keys : list ascii)
  (now : Q) (before after : list wake) (w : wake) :
  In SignalArrives (wake_events w) ->
  main calculate_distance strftime cfg file env resp events keys now
    (before ++ w :: after)
  = main calculate_distance strftime cfg file env resp events keys now
      (before ++ [w]) /\
  run_exited
    (main calculate_distance strftime cfg file env resp events keys now
       (before ++ w :: after)) = true.
Proof.
  intros Hsig. unfold main. apply main_loop_signal, Hsig.
Qed.

(** A property of the state that every step of the poll cycle keeps is kept
    by the cycle. *)
Lemma check_earthquakes_preserves (P : State -> Prop) (cfg : Config)
  (env : Env) (resp : response) (st : State) :
  (forall e s, no_process e = true -> P s -> P (emit e s)) ->
  (forall i s, P s -> P (set_last_earthquake_id i s)) ->
  (forall s, P s -> P (play_alarm cfg env s)) ->
  P st ->
  P (check_earthquakes calculate_distance strftime cfg env resp st).
Proof.
  intros Hemit Hid Hplay Hst.
  destruct resp as [ | | features ].
  - unfold check_earthquakes. repeat apply Hemit; auto.
  - unfold check_earthquakes. repeat apply Hemit; auto.
  - destruct (filter_nearby calculate_distance cfg features [])
      as [ | n l ] eqn:Hnear.
    { rewrite check_earthquakes_none_nearby by exact Hnear.
      apply Hemit; auto. }
    destruct (sort_by_mag_desc (n :: l)) as [ | strongest rest ] eqn:Hsort.
    { apply sort_by_mag_desc_nil in Hsort. discriminate Hsort. }
    rewrite <- Hnear in Hsort.
    rewrite (check_earthquakes_strongest calculate_distance strftime cfg env
               features strongest rest st Hsort).
    destruct (same_id _ _); [ exact Hst | ].
    assert (Hrep : P (reported strftime env strongest st)).
    { unfold reported, save_last_quake, log_earthquake.
      destruct (save_ok env), (log_ok env); repeat apply Hemit; auto. }
    destruct (Qle_bool _ _); [ apply Hplay, Hrep | apply Hemit; auto ].
Qed.

(** One pass of the listener leaves the state alone, stops the alarm, or
    quits. *)
Lemma keyboard_iteration_cases (env : Env) (st : State) (keys : list ascii) :
  let st' := fst (keyboard_iteration env st keys) in
  st' = st \/ st' = stop_alarm env st \/ st' = quit env st.
Proof.
  unfold keyboard_iteration, keyboard_iteration_nt, keyboard_iteration_posix,
    read1.
  destruct (os env); destruct keys as [ | k1 [ | k2 keys ] ];
    try destruct (tty_ok env); cbn [negb fst];
    repeat match goal with
      | |- context [if ?c then _ else _] => destruct c; cbn [fst]
      end; auto.
Qed.

(** A property that the calls of the other threads keep is kept by
    whatever they do between two calls of the main thread. *)
Lemma async_step_preserves (P : State -> Prop) (env : Env) (e : async_event)
  (sys : System) :
  (forall s, P s -> P (stop_alarm env s)) ->
  (forall s, P s -> P (signal_handler env s)) ->
  (forall s, P s -> P (quit env s)) ->
  P (sys_state sys) ->
  P (sys_state (async_step env e sys)).
Proof.
  intros Hstop Hsignal Hquit Hst.
  destruct e; unfold async_step; cbn [sys_state].
  - apply Hsignal, Hst.
  - destruct (_ <? _); cbn [sys_state]; auto.
  - destruct (shutdown_requested (sys_state sys)); [ exact Hst | ].
    pose proof (keyboard_iteration_cases env (sys_state sys) (sys_stdin sys))
      as Hcases.
    destruct (keyboard_iteration env (sys_state sys) (sys_stdin sys))
      as [st' rest]. cbn [sys_state fst] in *.
    destruct Hcases as [-> | [-> | ->]]; auto.
Qed.

Lemma async_run_preserves (P : State -> Prop) (env : Env)
  (events : list async_event) (sys : System) :
  (forall s, P s -> P (stop_alarm env s)) ->
  (forall s, P s -> P (signal_handler env s)) ->
  (forall s, P s -> P (quit env s)) ->
  P (sys_state sys) ->
  P (sys_state (async_run env events sys)).
Proof.
  intros Hstop Hsignal Hquit. revert sys.
  induction events as [ | e events IH ]; intros sys Hst; simpl.
  - exact Hst.
  - apply IH, async_step_preserves; assumption.
Qed.

(** A property that every call of every thread keeps, in environments
    that are [ok], holds throughout a run of [main].  The poll cycle need
    keep it only while no shutdown is requested: [main] calls it in no
    other state. *)
Lemma main_preserves (P : State -> Prop) (ok : Env -> bool) (cfg : Config)
  (file : stored_file) (env : Env) (resp : response)
  (events : list async_event) (keys : list ascii) (now : Q)
  (wakes : list wake) :
  (forall env s, ok env = true -> P s -> P (stop_alarm env s)) ->
  (forall env s, ok env = true -> P s -> P (signal_handler env s)) ->
  (forall env s, ok env = true -> P s -> P (quit env s)) ->
  (forall env resp s,
     ok env = true -> shutdown_requested s = false -> P s ->
     P (check_earthquakes calculate_distance strftime cfg env resp s)) ->
  P (emit (Console MSG_keyboard_help) (load_last_quake file initial_state)) ->
  ok env = true ->
  forallb (fun w => ok (wake_env w)) wakes = true ->
  P (sys_state
       (run_sys
          (main calculate_distance strftime cfg file env resp events keys
             now wakes))).
Proof.
  intros Hstop Hsignal Hquit Hcheck Hinit Henv Hwakes.
  unfold main.
  assert (Hstart : P (sys_state
                        (main_start calculate_distance strftime cfg file env
                           resp events keys))).
  { unfold main_start.
    apply async_run_preserves; auto. cbn [sys_state].
    apply Hcheck; [ exact Henv | destruct file; reflexivity | exact Hinit ]. }
  revert Hstart.
  generalize (main_start calculate_distance strftime cfg file env resp events keys).
  generalize (@nil Q). generalize now.
  induction wakes as [ | w rest IH ]; intros last_check checks sys Hsys.
  - exact Hsys.
  - simpl in Hwakes. apply andb_prop in Hwakes as [Hw Hrest].
    cbn [main_loop].
    destruct (shutdown_requested (sys_state sys)) eqn:Hshut; [ exact Hsys | ].
    destruct (Qle_bool _ _); apply (IH Hrest).
    + apply async_run_preserves; auto. unfold check_in; cbn [sys_state].
      apply Hcheck; assumption.
    + apply async_run_preserves; auto.
Qed.

(** *** At most one sink, and no process terminated twice *)

Lemma no_process_observations (e : effect) (es : list effect) :
  no_process e = true ->
  live_sinks (e :: es) = live_sinks es /\
  popen_count (e :: es) = popen_count es /\
  forall pid, terminations pid (e :: es) = terminations pid es.
Proof.
  intros H. rewrite popen_count_cons.
  destruct e; simpl in *; try discriminate H; repeat split.
Qed.

Lemma one_sink_emit (e : effect) (st : State) :
  no_process e = true -> one_sink st -> one_sink (emit e st).
Proof.
  intros He [Hlive Hidle]. unfold one_sink, handle_sinks.
  cbn [effects emit alarm_process is_alarm_active].
  destruct (no_process_observations e (effects st) He) as (-> & _).
  split; assumption.
Qed.


Lemma one_sink_signal_handler (env : Env) (st : State) :
  terminate_ok env = true -> one_sink st -> one_sink (signal_handler env st).
Proof.
  intros Hterm Hone. unfold signal_handler.
  apply one_sink_stop_alarm; [ exact Hterm | ].
  apply (one_sink_emit (Console MSG_signal_received) st eq_refl Hone).
Qed.

Lemma one_sink_quit (env : Env) (st : State) :
  terminate_ok env = true -> one_sink st -> one_sink (quit env st).
Proof.
  intros Hterm Hone. unfold quit.
  apply one_sink_emit; [ reflexivity | ].
  apply one_sink_stop_alarm; [ exact Hterm | exact Hone ].
Qed.



(** X18.  In a run of [main] in which starting a timer and stopping a
    process never raise, and in which calls of different threads do not
    overlap, at most one sink is live at every point, and none while the
    alarm is idle. *)
Theorem main_at_most_one_sink (cfg : Config) (file : stored_file) (env : Env)
  (resp : response) (events : list async_event) (keys : list ascii)
  (now : Q) (wakes : list wake) :
  benign env = true ->
  forallb (fun w => benign (wake_env w)) wakes = true ->
  let st :=
    sys_state
      (run_sys
         (main calculate_distance strftime cfg file env resp events keys
            now wakes)) in
  List.length (live_sinks (effects st)) <= 1 /\
  (is_alarm_active st = false -> live_sinks (effects st) = []).
Proof.
  intros Henv Hwakes st.
  assert (Hone : one_sink st).
  { unfold st. apply (main_preserves one_sink benign); try assumption.
    - intros e s He. apply andb_prop in He as [_ Hterm].
      apply one_sink_stop_alarm, Hterm.
    - intros e s He. apply andb_prop in He as [_ Hterm].
      apply one_sink_signal_handler, Hterm.
    - intros e s He. apply andb_prop in He as [_ Hterm].
      apply one_sink_quit, Hterm.
    - intros e r s He _. apply andb_prop in He as [Htimer _].
      apply check_earthquakes_preserves.
      + apply one_sink_emit.
      + exact (fun _ _ H => H).
      + intros s'. apply one_sink_play_alarm, Htimer.
    - apply one_sink_emit; [ reflexivity | ].
      destruct file; [ | apply one_sink_emit; [ reflexivity | ] | ];
        exact one_sink_initial. }
  split; [ apply one_sink_length, Hone | ].
  destruct Hone as [Hlive Hidle]. intros Hact.
  rewrite Hlive. unfold handle_sinks. rewrite (Hidle Hact). reflexivity.
Qed.


(** *** Leaving the loop *)




(** *** The identifier in memory and the record on file *)

Lemma id_matches_file_stop_alarm (loaded : option string) (env : Env)
  (st : State) :
  id_matches_file loaded st -> id_matches_file loaded (stop_alarm env st).
Proof.
  unfold id_matches_file. intros H.
  destruct (stop_alarm_counts env st) as (_ & _ & ->).
  rewrite stop_alarm_last_earthquake_id. exact H.
Qed.

Lemma id_matches_file_check (loaded : option string) (cfg : Config)
  (env : Env) (resp : response) (st : State) :
  save_ok env = true ->
  id_matches_file loaded st ->
  id_matches_file loaded
    (check_earthquakes calculate_distance strftime cfg env resp st).
Proof.
  intros Hok Hst.
  destruct resp as [ | | features ]; [ exact Hst | exact Hst | ].
  destruct (filter_nearby calculate_distance cfg features [])
    as [ | n l ] eqn:Hnear.
  { rewrite check_earthquakes_none_nearby by exact Hnear. exact Hst. }
  destruct (sort_by_mag_desc (n :: l)) as [ | strongest rest ] eqn:Hsort.
  { apply sort_by_mag_desc_nil in Hsort. discriminate Hsort. }
  rewrite <- Hnear in Hsort.
  destruct (same_id (quake_id (nq_quake strongest)) (last_earthquake_id st))
    eqn:Hsame.
  { rewrite (check_earthquakes_strongest calculate_distance strftime cfg env
               features strongest rest st Hsort), Hsame. exact Hst. }
  unfold id_matches_file.
  rewrite (check_earthquakes_stores_id calculate_distance strftime cfg env
             features strongest rest st Hsort).
  destruct (check_earthquakes_new_effects calculate_distance strftime cfg env
              features strongest rest st Hsort Hsame) as [later [-> Hlater]].
  rewrite last_quake_file_no_save by exact Hlater.
  rewrite Hok. reflexivity.
Qed.

(** X21.  As long as every write of the last-quake file succeeds, the
    identifier held in memory and the file agree throughout a run of
    [main]: the identifier is that of the record last written, and before
    the first write it is the one loaded at the start. *)
Theorem main_id_matches_file (cfg : Config) (file : stored_file) (env : Env)
  (resp : response) (events : list async_event) (keys : list ascii)
  (now : Q) (wakes : list wake) :
  save_ok env = true ->
  forallb (fun w => save_ok (wake_env w)) wakes = true ->
  let st :=
    sys_state
      (run_sys
         (main calculate_distance strftime cfg file env resp events keys
            now wakes)) in
  last_earthquake_id st =
    match last_quake_file (effects st) with
    | Some d => Some (qd_id d)
    | None => last_earthquake_id (load_last_quake file initial_state)
    end.
Proof.
  intros Henv Hwakes st. unfold st.
  apply (main_preserves
           (id_matches_file (last_earthquake_id (load_last_quake file initial_state)))
           save_ok); try assumption.
  - intros e s _. apply id_matches_file_stop_alarm.
  - intros e s _ H. unfold signal_handler.
    apply id_matches_file_stop_alarm. exact H.
  - intros e s _ H. unfold quit.
    change (id_matches_file
              (last_earthquake_id (load_last_quake file initial_state))
              (stop_alarm e (set_shutdown_requested true s))).
    apply id_matches_file_stop_alarm. exact H.
  - intros e r s He _. apply id_matches_file_check, He.
  - destruct file; reflexivity.
Qed.

End MainProperties.

(** *** The run of the sample *)

Lemma main_stops_after_signal_witness :
  sample_run [wake_early; wake_signal; wake_late]
    = sample_run [wake_early; wake_signal] /\
  run_exited (sample_run [wake_early; wake_signal; wake_late]) = true.
Proof.
  apply (main_stops_after_signal grid_distance show_time CONFIG NoFile env_posix
           (Json feed_a) [] ["x"; "y"]%char 0 [wake_early] [wake_late] wake_signal).
  left; reflexivity.
Defined.

Lemma main_at_most_one_sink_witness :
  let st := sys_state (run_sys (sample_run [wake_early; wake_signal; wake_late])) in
  List.length (live_sinks (effects st)) <= 1 /\
  (is_alarm_active st = false -> live_sinks (effects st) = []).
Proof.
  apply (main_at_most_one_sink grid_distance show_time CONFIG NoFile env_posix
           (Json feed_a) [] ["x"; "y"]%char 0 [wake_early; wake_signal; wake_late]);
    reflexivity.
Defined.

Lemma main_id_matches_file_witness :
  let st := sys_state (run_sys (sample_run [wake_early; wake_signal; wake_late])) in
  last_earthquake_id st =
    match last_quake_file (effects st) with
    | Some d => Some (qd_id d)
    | None => None
    end.
Proof.
  apply (main_id_matches_file grid_distance show_time CONFIG NoFile env_posix
           (Json feed_a) [] ["x"; "y"]%char 0 [wake_early; wake_signal; wake_late]);
    reflexivity.
Defined.

(** The sample run: the first check reports [quake_a] (below the
    threshold); the pass at 12 s reports [quake_c] and starts the alarm;
    the signal stops it; the pass at 30 s never happens. *)
Example sample_run_trace :
  let r := sample_run [wake_early; wake_signal; wake_late] in
  run_checks r = [12%Q] /\
  run_exited r = true /\
  last_earthquake_id (sys_state (run_sys r)) = Some "us7000c"%string /\
  popen_count (effects (sys_state (run_sys r))) = 1 /\
  terminations 0 (effects (sys_state (run_sys r))) = 1 /\
  is_alarm_active (sys_state (run_sys r)) = false.
Proof. vm_compute. repeat split. Qed.


(** *** The poll cycle on the sample feeds *)

Lemma written_record_is_strongest_nearby_witness :
  let d := quake_data_of show_time (evaluated grid_distance CONFIG quake_b) in
  In (SaveLastQuake d true) (effects initial_state) \/
  exists quake,
    In quake feed /\
    (distance_of grid_distance CONFIG quake <= MAX_DISTANCE CONFIG)%Q /\
    (forall q, In q feed ->
       (distance_of grid_distance CONFIG q <= MAX_DISTANCE CONFIG)%Q ->
       (prop_mag q <= prop_mag quake)%Q) /\
    d = quake_data_of show_time (evaluated grid_distance CONFIG quake) /\
    qd_distance d = distance_of grid_distance CONFIG quake /\
    true = save_ok env_posix.
Proof.
  intros d.
  apply (written_record_is_strongest_nearby grid_distance show_time CONFIG
           env_posix feed initial_state d true).
  do 7 right. left. reflexivity.
Defined.




Lemma nothing_nearby_only_reports_witness :
  let st' :=
    check_earthquakes grid_distance show_time CONFIG env_posix
      (Json [quake_far]) sounding in
  is_alarm_active st' = is_alarm_active sounding /\
  alarm_process st' = alarm_process sounding /\
  last_earthquake_id st' = last_earthquake_id sounding /\
  shutdown_requested st' = shutdown_requested sounding /\
  exists new,
    effects st' = new ++ effects sounding /\
    forallb is_report new = true /\
    1 <= List.length new <= 2.
Proof.
  apply (nothing_nearby_only_reports grid_distance show_time CONFIG env_posix
           (Json [quake_far]) sounding).
  reflexivity.
Defined.



(** ** The event log *)

Lemma attempts_harmless (new es : list effect) :
  forallb harmless new = true ->
  save_attempts (new ++ es) = save_attempts es /\
  log_attempts (new ++ es) = log_attempts es.
Proof.
  induction new as [ | e new IH ]; simpl; [ split; reflexivity | ].
  intros H. apply andb_prop in H as [He Hnew].
  destruct e; simpl in *; try discriminate He; auto.
Qed.

Lemma logged_as_saved_play_alarm (cfg : Config) (env : Env) (st : State) :
  logged_as_saved st -> logged_as_saved (play_alarm cfg env st).
Proof.
  unfold logged_as_saved. intros H.
  destruct (play_alarm_extends cfg env st) as [new [Hext Hnew]].
  unfold extends in Hext. rewrite Hext.
  destruct (attempts_harmless new (effects st) Hnew) as [-> ->]. exact H.
Qed.

Lemma logged_as_saved_stop_alarm (env : Env) (st : State) :
  logged_as_saved st -> logged_as_saved (stop_alarm env st).
Proof.
  unfold logged_as_saved, stop_alarm. intros H.
  destruct (is_alarm_active st); simpl; [ | exact H ].
  destruct (alarm_process st); simpl; [ | exact H ].
  destruct (terminate_ok env); [ destruct (os env) | ]; exact H.
Qed.

Section LogProperties.

Variable calculate_distance : Q -> Q -> Q -> Q -> Q.
Variable strftime : Z -> string.

Lemma logged_as_saved_check (cfg : Config) (env : Env) (resp : response)
  (st : State) :
  logged_as_saved st ->
  logged_as_saved
    (check_earthquakes calculate_distance strftime cfg env resp st).
Proof.
  intros Hst.
  destruct resp as [ | | features ]; [ exact Hst | exact Hst | ].
  destruct (filter_nearby calculate_distance cfg features [])
    as [ | n l ] eqn:Hnear.
  { rewrite check_earthquakes_none_nearby by exact Hnear. exact Hst. }
  destruct (sort_by_mag_desc (n :: l)) as [ | strongest rest ] eqn:Hsort.
  { apply sort_by_mag_desc_nil in Hsort. discriminate Hsort. }
  rewrite <- Hnear in Hsort.
  rewrite (check_earthquakes_strongest calculate_distance strftime cfg env
             features strongest rest st Hsort).
  destruct (same_id _ _); [ exact Hst | ].
  assert (Hrep : logged_as_saved (reported strftime env strongest st)).
  { unfold logged_as_saved in *. unfold reported, save_last_quake, log_earthquake.
    destruct (save_ok env), (log_ok env); simpl; rewrite Hst; reflexivity. }
  destruct (Qle_bool _ _); [ apply logged_as_saved_play_alarm, Hrep | exact Hrep ].
Qed.

(** X22.  Throughout a run of [main], whatever fails, the records handed to
    the event log are the records handed to the last-quake file, in the
    same order: every event that is reported is both saved and logged, and
    nothing else is. *)
Theorem main_logs_what_it_saves (cfg : Config) (file : stored_file) (env : Env)
  (resp : response) (events : list async_event) (keys : list ascii)
  (now : Q) (wakes : list wake) :
  let st :=
    sys_state
      (run_sys
         (main calculate_distance strftime cfg file env resp events keys
            now wakes)) in
  log_attempts (effects st) = save_attempts (effects st).
Proof.
  intros st. symmetry. unfold st.
  apply (main_preserves calculate_distance strftime logged_as_saved
           (fun _ => true)).
  - intros e s _. apply logged_as_saved_stop_alarm.
  - intros e s _ H. unfold signal_handler.
    apply logged_as_saved_stop_alarm. exact H.
  - intros e s _ H. unfold quit.
    change (logged_as_saved (stop_alarm e (set_shutdown_requested true s))).
    apply logged_as_saved_stop_alarm. exact H.
  - intros e r s _ _. apply logged_as_saved_check.
  - destruct file; reflexivity.
  - reflexivity.
  - clear. induction wakes; simpl; auto.
Qed.

End LogProperties.
